(** * Blogger sync service (server/index.js): model and properties

    The service reads a ledger file, fetches a JSON feed of streams,
    creates one blog post per stream that the ledger does not know yet and
    writes the ledger back.  This development embeds the functions of
    [server/index.js] that take part in that pass ([readDB], [writeDB],
    [escapeHtml], [syncAndCreatePosts]) together with the fragment of
    JavaScript they rely on, and states the properties of the sync engine
    over that embedding. *)

From Stdlib Require Import String Ascii List Bool Arith Lia.
From stdpp Require Import base option list strings gmap.

Set Warnings "-register-all".
Local Open Scope string_scope.

(** ** JavaScript values

    Every value the pass handles comes out of [JSON.parse] (the ledger, the
    feed) or is [undefined] (a property that is not there). *)

(** A JSON number is carried by the text [String(n)] gives for it, which is
    all the program ever does with one besides testing it against zero
    ([String(0)] and [String(-0)] are both "0"; JSON has no NaN). *)
Definition number := string.

Inductive json : Type :=
| JNull
| JBool (b : bool)
| JNum (n : number)
| JStr (s : string)
| JArr (xs : list json)
| JObj (props : list (string * json)).

(** [None] is JavaScript's [undefined]. *)
Definition value := option json.
Abbreviation undefined := (@None json).

(** ToBoolean. *)
Definition truthy (v : value) : bool :=
  match v with
  | None => false
  | Some JNull => false
  | Some (JBool b) => b
  | Some (JNum n) => negb (String.eqb n "0")
  | Some (JStr s) => negb (String.eqb s "")
  | Some (JArr _) => true
  | Some (JObj _) => true
  end.

(** [a || b]. *)
Definition or_else (a b : value) : value := if truthy a then a else b.
Infix "<||>" := or_else (at level 51, left associativity).

(** Own properties of an object, as [JSON.parse] builds them. *)
Fixpoint lookup_prop (k : string) (props : list (string * json)) : value :=
  match props with
  | [] => None
  | (k', v) :: rest => if String.eqb k k' then Some v else lookup_prop k rest
  end.

(** [o[k] = v] on a plain object: the property is overwritten where it is,
    or added after the others. *)
Fixpoint set_prop (k : string) (v : json) (props : list (string * json))
  : list (string * json) :=
  match props with
  | [] => [(k, v)]
  | (k', v') :: rest =>
      if String.eqb k k' then (k, v) :: rest else (k', v') :: set_prop k v rest
  end.

(** ** Completions: a call returns or throws *)

Inductive Error : Type :=
| TypeError                      (* a property of null was read, or an
                                    object could not be made a text *)
| ENOENT                         (* fs.readFileSync could not read the file *)
| SyntaxError                    (* JSON.parse rejected the text *)
| NoRefreshToken                 (* 'No refresh token found in DB. ...' *)
| FetchRejected                  (* fetch() rejected: network error, timeout *)
| FetchNotOk (status : number)   (* 'Failed to fetch events JSON: ' + status *)
| FetchBodyInvalid               (* resp.json() rejected *)
| InsertFailed.                  (* blogger.posts.insert rejected, or its
                                    response has no data *)

Inductive Completion (A : Type) : Type :=
| Return (a : A)
| Throw (e : Error).
Arguments Return {A} a.
Arguments Throw {A} e.

#[global] Instance Completion_ret : MRet Completion := @Return.
#[global] Instance Completion_bind : MBind Completion :=
  fun A B (f : A -> Completion B) (c : Completion A) =>
    match c with
    | Return a => f a
    | Throw e => Throw e
    end.

(** [try { body } catch (e) { handler }]. *)
Definition try_catch {A} (body : Completion A) (handler : Error -> Completion A)
  : Completion A :=
  match body with
  | Return a => Return a
  | Throw e => handler e
  end.

(** [String(j)].  An array is its elements joined by commas, [null]
    elements giving the empty text (Array.prototype.join).  A plain object
    is converted by the [toString] it finds: the one of Object.prototype,
    which gives "[object Object]", unless the object has a property
    [toString] of its own; a value out of JSON cannot be called, [valueOf]
    gives the object back, and the conversion throws a TypeError. *)
Section Join.

Variable text_of : json -> Completion string.

(** One element of [join]: nothing for [null]. *)
Definition element (x : json) : Completion string :=
  match x with
  | JNull => Return ""
  | _ => text_of x
  end.

Fixpoint join (l : list json) : Completion string :=
  match l with
  | [] => Return ""
  | [x] => element x
  | x :: rest =>
      hd ← element x;
      tl ← join rest;
      Return (hd +:+ "," +:+ tl)
  end.

End Join.

Fixpoint toString (j : json) : Completion string :=
  match j with
  | JNull => Return "null"
  | JBool true => Return "true"
  | JBool false => Return "false"
  | JNum n => Return n
  | JStr s => Return s
  | JArr xs => join toString xs
  | JObj props =>
      match lookup_prop "toString" props with
      | Some _ => Throw TypeError
      | None => Return "[object Object]"
      end
  end.

Definition String_ (v : value) : Completion string :=
  match v with
  | None => Return "undefined"
  | Some j => toString j
  end.

(** [v.k] for a value [v] other than [null] and a name [k] among the field
    names the program reads ([events], [streams], [id], [tag], [name], ...):
    none of them is defined by the prototypes of arrays, strings, numbers or
    booleans, so only a plain object can answer. Reading a property of
    [null] throws; the callers test for it first. *)
Definition prop (v : json) (k : string) : value :=
  match v with
  | JObj props => lookup_prop k props
  | _ => None
  end.

(** [Array.isArray]. *)
Definition isArray (v : value) : bool :=
  match v with
  | Some (JArr _) => true
  | _ => false
  end.

(** ** escapeHtml (index.js 186-188) *)

Definition dquote : ascii := "034"%char.
Definition squote : ascii := "039"%char.
Definition DQ : string := String dquote "".

(** The object literal the replacement callback indexes. *)
Definition entity (c : ascii) : string :=
  if Ascii.eqb c "&" then "&amp;"
  else if Ascii.eqb c "<" then "&lt;"
  else if Ascii.eqb c ">" then "&gt;"
  else if Ascii.eqb c dquote then "&quot;"
  else if Ascii.eqb c squote then "&#39;"
  else String c "".

(** The global [replace] over the class of the five characters ampersand,
    less-than, greater-than, double quote and single quote: every character
    of the class is replaced, the others are kept. *)
Fixpoint replace_special (s : string) : string :=
  match s with
  | EmptyString => ""
  | String c rest => entity c +:+ replace_special rest
  end.

Definition escapeHtml (s : value) : Completion string :=
  text ← String_ (s <||> Some (JStr ""));
  Return (replace_special text).

(** The spec's names for the two errors that end a pass before it starts. *)
Definition MissingCredentialError (e : Error) : Prop := e = NoRefreshToken.
Definition FeedFetchError (e : Error) : Prop :=
  e = FetchRejected \/ (exists st, e = FetchNotOk st) \/ e = FetchBodyInvalid.

(** ** The ledger and its file (index.js 35-45) *)

(** The value stored under an identity (index.js 168-172). *)
Record PublishedEntry : Type := {
  entry_postId : value;
  entry_createdAt : string;
  entry_title : value
}.

(** The object the ledger file holds: what [readDB] falls back to and what
    [writeDB] serialises, an object with a map from identities to entries
    and a credential.  [postedIds] is optional because line 105 caters for a
    ledger without it.  The service writes nothing else into the file;
    texts that parse to a value of another shape are not part of the
    model. *)
Record DB : Type := {
  postedIds : option (gmap string PublishedEntry);
  refresh_token : value
}.

(** The names every plain object inherits from [Object.prototype]:
    [o[k]] is truthy for them although [o] has no such entry. *)
Definition Object_prototype_names : list string :=
  [ "constructor"; "__defineGetter__"; "__defineSetter__"; "hasOwnProperty";
    "__lookupGetter__"; "__lookupSetter__"; "isPrototypeOf";
    "propertyIsEnumerable"; "toString"; "valueOf"; "__proto__";
    "toLocaleString" ].

(** The test [db.postedIds[sid]] of line 142: an entry is an object, hence
    truthy; without an own entry the lookup goes to the prototype. *)
Definition posted (m : gmap string PublishedEntry) (sid : string) : bool :=
  match m !! sid with
  | Some _ => true
  | None => bool_decide (sid ∈ Object_prototype_names)
  end.

(** Contents of a file, up to what [JSON.parse] makes of them. *)
Inductive Text : Type :=
| Json (db : DB)       (* JSON.stringify(db, null, 2) *)
| Partial (db : DB)    (* a strict prefix of that text *)
| Garbage.             (* any other text that is not JSON *)

Definition JSON_stringify (db : DB) : Text := Json db.

Definition JSON_parse (t : Text) : Completion DB :=
  match t with
  | Json db => Return db
  | Partial _ => Throw SyntaxError
  | Garbage => Throw SyntaxError
  end.

(** What a write leaves of its data when it is interrupted. *)
Definition truncated (t : Text) : Text :=
  match t with
  | Json db => Partial db
  | Partial db => Partial db
  | Garbage => Garbage
  end.

(** The file system: the files that can be read, by path. *)
Abbreviation FS := (gmap string Text).

(** The default of line 18. *)
Definition DB_FILE : string := "./db.json".

Definition readFileSync (fs : FS) (path : string) : Completion Text :=
  match fs !! path with
  | Some t => Return t
  | None => Throw ENOENT
  end.

Definition emptyDB : DB := {| postedIds := Some ∅; refresh_token := Some JNull |}.

Definition readDB (fs : FS) : Completion DB :=
  try_catch
    (raw ← readFileSync fs DB_FILE; JSON_parse raw)
    (fun _ => Return emptyDB).

Inductive FsOp : Type :=
| WriteFile (path : string) (data : Text)   (* fs.writeFileSync(path, data) *)
| Rename (src dst : string).                (* fs.renameSync(src, dst) *)

(** The calls [writeDB] makes.  (A write that fails, on a full disk say, is
    not modelled.) *)
Definition writeDB (db : DB) : list FsOp :=
  [ WriteFile DB_FILE (JSON_stringify db) ].

(** The file system after a call that ran to its end. *)
Definition apply_op (fs : FS) (op : FsOp) : FS :=
  match op with
  | WriteFile p t => <[p := t]> fs
  | Rename src dst =>
      match fs !! src with
      | Some t => <[dst := t]> (delete src fs)
      | None => fs
      end
  end.

Definition apply_ops (ops : list FsOp) (fs : FS) : FS := fold_left apply_op ops fs.

(** The states a call goes through before it ends: [writeFileSync] opens
    the file with flag 'w', which empties it, and then fills it; a rename
    replaces its target in one step. *)
Definition during (op : FsOp) (fs : FS) : list FS :=
  match op with
  | WriteFile p t => [ <[p := truncated t]> fs ]
  | Rename _ _ => []
  end.

(** The states in which a crash of the process can leave the file system
    while it makes the calls [ops]. *)
Fixpoint crash_states (ops : list FsOp) (fs : FS) : list FS :=
  match ops with
  | [] => [fs]
  | op :: rest => fs :: during op fs ++ crash_states rest (apply_op fs op)
  end.

(** ** Collecting the streams (index.js 121-136) *)

(** A value that the source has made sure is not [undefined]. *)
Definition defined (v : value) : json := default (JStr "") v.

(** Line 127: [if (!s.id && s.tag) s.id = s.tag]. *)
Definition fallback_id (s : json) : json :=
  match s with
  | JObj props =>
      if negb (truthy (prop s "id")) && truthy (prop s "tag")
      then JObj (set_prop "id" (defined (prop s "tag")) props)
      else s
  | _ => s
  end.

(** Line 128: [s._category = ...].  On a string, number or boolean the
    assignment is dropped (the module is not in strict mode); an array would
    keep the property, but an array has none of the identity fields, the
    loop passes over it and never reads [_category] from it. *)
Definition set_category (c : json) (s : json) : json :=
  match s with
  | JObj props => JObj (set_prop "_category" c props)
  | _ => s
  end.

Definition category_of (cat : json) : json :=
  defined (prop cat "category" <||> prop cat "category_name" <||> Some (JStr "")).

(** [cat.streams.forEach(s => ...)]. *)
Fixpoint collect_group (c : json) (ss : list json) : Completion (list json) :=
  match ss with
  | [] => Return []
  | JNull :: _ => Throw TypeError
  | s :: rest =>
      tl ← collect_group c rest;
      Return (set_category c (fallback_id s) :: tl)
  end.

(** The body of the outer callback: [if (Array.isArray(cat.streams)) ...]. *)
Definition collect_cat (cat : json) : Completion (list json) :=
  match prop cat "streams" with
  | Some (JArr ss) => collect_group (category_of cat) ss
  | _ => Return []
  end.

(** [j.events.streams.forEach(cat => ...)]. *)
Fixpoint collect_groups (cats : list json) : Completion (list json) :=
  match cats with
  | [] => Return []
  | JNull :: _ => Throw TypeError
  | cat :: rest =>
      hd ← collect_cat cat;
      tl ← collect_groups rest;
      Return ((hd ++ tl)%list)
  end.

Definition collect_streams (j : json) : Completion (list json) :=
  match j with
  | JNull => Throw TypeError
  | _ =>
      let events := prop j "events" in
      if truthy events && isArray (prop (defined events) "streams") then
        match prop (defined events) "streams" with
        | Some (JArr cats) => collect_groups cats
        | _ => Return []
        end
      else
        match j with
        | JArr ss => Return ss
        | _ => Return []
        end
  end.

(** ** Identity and content of a stream (index.js 140-156) *)

(** Line 140. *)
Definition identity (s : json) : Completion string :=
  String_ (prop s "id" <||> prop s "uri_name" <||> prop s "name" <||> prop s "title"
           <||> (prop s "tag" <||> Some (JStr ""))).

(** [x[0]]: the first element of an array, the property "0" of an object,
    the first character of a string. *)
Definition index0 (x : json) : value :=
  match x with
  | JArr (e :: _) => Some e
  | JObj props => lookup_prop "0" props
  | JStr (String c _) => Some (JStr (String c ""))
  | _ => None
  end.

(** [x?.f]: [undefined] when [x] is [null] or [undefined]. *)
Definition optional (x : value) (f : json -> value) : value :=
  match x with
  | None => None
  | Some JNull => None
  | Some j => f j
  end.

Definition NL : string := String "010"%char "".
Definition lead : string := NL +:+ "      ".

Section Pass.

(** The world around a pass: how the locale prints a start time, what the
    clock says when the [n]-th call of the pass is recorded, and what
    Blogger answers to the [n]-th call of the pass ([None]: the call, or the
    reading of [respPost.data.id], threw). *)
Variable toLocaleString : value -> string.
Variable toISOString_now : nat -> string.

Record Request : Type := {
  req_title : value;
  req_content : string;
  req_labels : list value
}.

Variable posts_insert : nat -> Request -> option value.

Definition post_title (s : json) (sid : string) : value :=
  prop s "name" <||> prop s "title" <||> Some (JStr ("Match " +:+ sid)).

(** Line 146.  [Number(v)] makes a primitive of an object or an array
    through the same [toString] as [String(v)] (their [valueOf] gives the
    object back), and throws in the same cases; the number and the date
    printed from it are left to [toLocaleString]. *)
Definition startsAt (s : json) : Completion string :=
  if truthy (prop s "starts_at") then
    _ ← String_ (prop s "starts_at");
    Return (toLocaleString (prop s "starts_at"))
  else Return "TBA".

Definition iframe (s : json) : value :=
  prop s "iframe"
  <||> optional (optional (prop s "resolved_m3u8") index0) (fun x => prop x "url")
  <||> Some (JStr "").

Definition poster (s : json) : Completion string :=
  if truthy (prop s "poster") then
    src ← escapeHtml (prop s "poster");
    Return ("<p><img src=" +:+ DQ +:+ src +:+ DQ +:+ " style=" +:+ DQ
            +:+ "max-width:100%;height:auto" +:+ DQ +:+ "></p>")
  else Return "".

Definition iframe_block (s : json) : Completion string :=
  if truthy (iframe s) then
    src ← escapeHtml (iframe s);
    Return ("<p><iframe src=" +:+ DQ +:+ src +:+ DQ +:+ " width=" +:+ DQ
            +:+ "100%" +:+ DQ +:+ " height=" +:+ DQ +:+ "480" +:+ DQ +:+ " frameborder=" +:+ DQ
            +:+ "0" +:+ DQ +:+ " allowfullscreen></iframe></p>")
  else Return "".

(** Lines 146-156, in the order in which they are evaluated. *)
Definition content (s : json) : Completion string :=
  starts ← startsAt s;
  image ← poster s;
  category ← escapeHtml (prop s "_category" <||> prop s "category_name" <||> Some (JStr ""));
  starts' ← escapeHtml (Some (JStr starts));
  tag ← escapeHtml (prop s "tag" <||> Some (JStr ""));
  embed ← iframe_block s;
  Return
    (lead +:+ "<p><strong>Category:</strong> " +:+ category +:+ "</p>"
     +:+ lead +:+ "<p><strong>Starts:</strong> " +:+ starts' +:+ "</p>"
     +:+ lead +:+ image
     +:+ lead +:+ "<p>" +:+ tag +:+ "</p>"
     +:+ lead +:+ embed
     +:+ lead +:+ "<p>Source: auto-generated from events JSON.</p>"
     +:+ NL +:+ "    ").

Definition request (s : json) (sid : string) : Completion Request :=
  body ← content s;
  Return {| req_title := post_title s sid;
            req_content := body;
            req_labels := [ prop s "_category" <||> Some (JStr "match") ] |}.

(** ** The loop over the streams (index.js 138-180) *)

Record Created : Type := {
  created_sid : string;
  created_postId : value;
  created_title : value
}.

(** What the pass does to the outside, in the order it does it.  The
    identity in [Insert] is not sent to Blogger: it records which stream the
    request was built for. *)
Inductive Event : Type :=
| Fetch
| Insert (sid : string) (r : Request) (answer : option value)
| Fs (op : FsOp).

Record LoopResult : Type := {
  lr_events : list Event;
  lr_posted : gmap string PublishedEntry;
  lr_created : list Created;
  lr_completion : Completion unit
}.

(** Lines 168-172: [db.postedIds[sid] = { postId, createdAt, title }].
    (Under the name [__proto__] an object without such an entry would get a
    new prototype rather than an entry; the loop does not get there, the
    test of line 142 being truthy for that name.) *)
Definition recordPublished (m : gmap string PublishedEntry) (sid : string)
    (postId : value) (createdAt : string) (title : value)
  : Completion (gmap string PublishedEntry) :=
  Return (<[sid := {| entry_postId := postId;
                      entry_createdAt := createdAt;
                      entry_title := title |}]> m).

(** The loop as it is when it stops on an error thrown outside the [try]. *)
Definition stopped (m : gmap string PublishedEntry) (e : Error) : LoopResult :=
  {| lr_events := []; lr_posted := m; lr_created := []; lr_completion := Throw e |}.

(** [for (const s of streams) { ... }], with [m] the published map and [n]
    the number of calls made to Blogger so far.  [created] is returned in
    the order in which [created.push] fills it.  What throws before the
    [try] stops the loop: [s.id] on a [null] stream, the conversions to text
    of lines 140 and 146-154.  The message on the console and the pause of
    500 ms after a publish are left out. *)
Fixpoint loop (streams : list json) (m : gmap string PublishedEntry) (n : nat)
  : LoopResult :=
  match streams with
  | [] =>
      {| lr_events := []; lr_posted := m; lr_created := [];
         lr_completion := Return tt |}
  | JNull :: _ => stopped m TypeError
  | s :: rest =>
      match identity s with
      | Throw e => stopped m e
      | Return sid =>
          if String.eqb sid "" then loop rest m n
          else if posted m sid then loop rest m n
          else
            let title := post_title s sid in
            match request s sid with
            | Throw e => stopped m e
            | Return req =>
                let answer := posts_insert n req in
                match
                  try_catch
                    (postId ← match answer with
                              | Some id => Return id
                              | None => Throw InsertFailed
                              end;
                     m' ← recordPublished m sid postId (toISOString_now n) title;
                     Return (m', [ {| created_sid := sid; created_postId := postId;
                                      created_title := title |} ]))
                    (fun _ => Return (m, []))
                with
                | Return (m', pushed) =>
                    let r := loop rest m' (S n) in
                    {| lr_events := Insert sid req answer :: lr_events r;
                       lr_posted := lr_posted r;
                       lr_created := (pushed ++ lr_created r)%list;
                       lr_completion := lr_completion r |}
                | Throw e =>
                    {| lr_events := [ Insert sid req answer ]; lr_posted := m;
                       lr_created := []; lr_completion := Throw e |}
                end
            end
      end
  end.

(** ** The pass (index.js 103-184) *)

(** What [fetch] and [resp.json()] give: the fetch rejects, or there is a
    response with its [ok] flag, its status and the parsed body ([None]:
    the body is not JSON). *)
Inductive FetchOutcome : Type :=
| Rejected
| Response (ok : bool) (status : number) (body : option json).

Record SyncResult : Type := {
  createdCount : nat;
  created : list Created
}.

Record PassResult : Type := {
  pass_events : list Event;
  pass_fs : FS;
  pass_completion : Completion SyncResult
}.

Definition failed (evs : list Event) (fs : FS) (e : Error) : PassResult :=
  {| pass_events := evs; pass_fs := fs; pass_completion := Throw e |}.

Definition syncAndCreatePosts (fs : FS) (feed : FetchOutcome) : PassResult :=
  match readDB fs with
  | Throw e => failed [] fs e
  | Return db =>
      let m := default ∅ (postedIds db) in
      if negb (truthy (refresh_token db)) then failed [] fs NoRefreshToken
      else
        match feed with
        | Rejected => failed [Fetch] fs FetchRejected
        | Response ok status body =>
            if negb ok then failed [Fetch] fs (FetchNotOk status)
            else
              match body with
              | None => failed [Fetch] fs FetchBodyInvalid
              | Some j =>
                  match collect_streams j with
                  | Throw e => failed [Fetch] fs e
                  | Return streams =>
                      let r := loop streams m 0 in
                      match lr_completion r with
                      | Throw e => failed (Fetch :: lr_events r) fs e
                      | Return _ =>
                          let db' := {| postedIds := Some (lr_posted r);
                                        refresh_token := refresh_token db |} in
                          {| pass_events :=
                               (Fetch :: lr_events r ++ map Fs (writeDB db'))%list;
                             pass_fs := apply_ops (writeDB db') fs;
                             pass_completion :=
                               Return {| createdCount := length (lr_created r);
                                         created := lr_created r |} |}
                      end
                  end
              end
        end
  end.

End Pass.

(** ** The routes (index.js 58-96)

    The two routes that touch the ledger: the OAuth callback, which stores
    the credential, and the trigger of a pass. *)

(** What a route answers: a text with its status, the result of a pass as
    JSON, or an error's message as JSON with its status. *)
Inductive Reply : Type :=
| Send (status : nat) (body : string)
| SendResult (result : SyncResult)
| SendError (status : nat) (message : string).


(** [err.message]: the two texts the pass itself throws with, and for the
    errors that come out of the libraries the text [lib] they carry. *)
Definition message (lib : Error -> string) (e : Error) : string :=
  match e with
  | NoRefreshToken => "No refresh token found in DB. Visit /auth and complete OAuth flow."
  | FetchNotOk status => "Failed to fetch events JSON: " +:+ status
  | _ => lib e
  end.


(** The test of lines 85-88: with a non-empty [SYNC_SECRET] in the
    environment, what was sent (the header [x-sync-secret] or, when that is
    absent or empty, the query parameter [secret]) must be that very
    string. *)
Definition sent_secret (header : option string) (query_secret : value) : value :=
  (JStr <$> header) <||> query_secret.

Definition forbidden (SYNC_SECRET : option string)
    (header : option string) (query_secret : value) : bool :=
  match SYNC_SECRET with
  | None => false
  | Some secret =>
      if String.eqb secret "" then false
      else
        match sent_secret header query_secret with
        | Some (JStr sent) => negb (String.eqb sent secret)
        | _ => true
        end
  end.

Record Handled : Type := {
  handled_events : list Event;
  handled_fs : FS;
  handled_reply : Reply
}.

(** [app.post('/sync', ...)]. *)
Definition sync_route (toLocaleString : value -> string) (toISOString_now : nat -> string)
    (posts_insert : nat -> Request -> option value) (lib : Error -> string)
    (SYNC_SECRET : option string) (header : option string) (query_secret : value)
    (fs : FS) (feed : FetchOutcome) : Handled :=
  if forbidden SYNC_SECRET header query_secret then
    {| handled_events := []; handled_fs := fs; handled_reply := Send 403 "Forbidden" |}
  else
    let r := syncAndCreatePosts toLocaleString toISOString_now posts_insert fs feed in
    {| handled_events := pass_events r;
       handled_fs := pass_fs r;
       handled_reply :=
         match pass_completion r with
         | Return result => SendResult result
         | Throw e => SendError 500 (message lib e)
         end |}.

(** * Vocabulary of the properties *)

(** ** Escaping *)

(** The characters with which a text can open or close a tag or an
    attribute value. *)
Definition markup (c : ascii) : bool :=
  Ascii.eqb c "<" || Ascii.eqb c ">" || Ascii.eqb c dquote || Ascii.eqb c squote.

(** The markup characters of a text, in order. *)
Fixpoint markup_of (s : string) : string :=
  match s with
  | EmptyString => ""
  | String c rest => if markup c then String c (markup_of rest) else markup_of rest
  end.

(** Decoding of the five entities; [skip] characters of an entity already
    decoded are passed over. *)
Fixpoint unescape_from (skip : nat) (s : string) : string :=
  match s with
  | EmptyString => ""
  | String c rest =>
      match skip with
      | S k => unescape_from k rest
      | O =>
          if Ascii.eqb c "&" then
            if String.prefix "amp;" rest then String "&" (unescape_from 4 rest)
            else if String.prefix "lt;" rest then String "<" (unescape_from 3 rest)
            else if String.prefix "gt;" rest then String ">" (unescape_from 3 rest)
            else if String.prefix "quot;" rest then String dquote (unescape_from 5 rest)
            else if String.prefix "#39;" rest then String squote (unescape_from 4 rest)
            else String c (unescape_from 0 rest)
          else String c (unescape_from 0 rest)
      end
  end.

Definition unescape (s : string) : string := unescape_from 0 s.

(** The text of lines 149-156 around its five interpolations, with the two
    blocks that are there or not. *)
Definition template (has_poster has_iframe : bool)
    (category starts posterUrl tag iframeUrl : string) : string :=
  lead +:+ "<p><strong>Category:</strong> " +:+ category +:+ "</p>"
  +:+ lead +:+ "<p><strong>Starts:</strong> " +:+ starts +:+ "</p>"
  +:+ lead
  +:+ (if has_poster then
         "<p><img src=" +:+ DQ +:+ posterUrl +:+ DQ +:+ " style=" +:+ DQ
         +:+ "max-width:100%;height:auto" +:+ DQ +:+ "></p>"
       else "")
  +:+ lead +:+ "<p>" +:+ tag +:+ "</p>"
  +:+ lead
  +:+ (if has_iframe then
         "<p><iframe src=" +:+ DQ +:+ iframeUrl +:+ DQ +:+ " width=" +:+ DQ
         +:+ "100%" +:+ DQ +:+ " height=" +:+ DQ +:+ "480" +:+ DQ +:+ " frameborder=" +:+ DQ
         +:+ "0" +:+ DQ +:+ " allowfullscreen></iframe></p>"
       else "")
  +:+ lead +:+ "<p>Source: auto-generated from events JSON.</p>"
  +:+ NL +:+ "    ".

(** The escaped text of a value that is interpolated only when [b]. *)
Definition escaped_when (b : bool) (v : value) : Completion string :=
  if b then escapeHtml v else Return "".


(** ** Identities *)

(** The first truthy value of a list, [undefined] when there is none. *)
Fixpoint first_truthy (vs : list value) : value :=
  match vs with
  | [] => None
  | v :: rest => if truthy v then v else first_truthy rest
  end.

(** The identity a stream gets when its candidate fields are tried in the
    order [fields]: the text of the first truthy one, the empty text when
    none is. *)
Definition resolve (fields : list string) (s : json) : Completion string :=
  String_ (first_truthy (map (prop s) fields) <||> Some (JStr "")).

(** The order of section 4.2 of the specification. *)
Definition spec_order : list string := ["id"; "uri_name"; "name"; "title"; "tag"].

(** The order a stream of the nested shape ends up with. *)
Definition nested_order : list string := ["id"; "tag"; "uri_name"; "name"; "title"].

(** ** Events of a pass *)

(** The identities for which Blogger was called, in the order of the calls. *)
Fixpoint inserted_sids (evs : list Event) : list string :=
  match evs with
  | [] => []
  | Insert sid _ _ :: rest => sid :: inserted_sids rest
  | _ :: rest => inserted_sids rest
  end.

(** The identities for which a call succeeded. *)
Fixpoint published_sids (evs : list Event) : list string :=
  match evs with
  | [] => []
  | Insert sid _ (Some _) :: rest => sid :: published_sids rest
  | _ :: rest => published_sids rest
  end.

(** The identities the loop takes as new under the published map [m]. *)
Definition fresh (m : gmap string PublishedEntry) (sid : string) : bool :=
  negb (String.eqb sid "") && negb (posted m sid).

(** A list without the later repetitions of its elements. *)
Fixpoint keep_first (l : list string) : list string :=
  match l with
  | [] => []
  | x :: rest => x :: List.filter (fun y => negb (String.eqb y x)) (keep_first rest)
  end.

(** ** Saving through a temporary file *)

Definition TMP_FILE : string := "./db.json.tmp".

(** The save of section 4.4 of the specification, written after its words:
    the text goes to a temporary file, which is then renamed to the ledger
    file. *)
Definition save_via_rename (db : DB) : list FsOp :=
  [ WriteFile TMP_FILE (JSON_stringify db); Rename TMP_FILE DB_FILE ].

(** The ledger file holds the ledger [old] or the ledger [new], whole. *)
Definition whole (old : option Text) (new : DB) (fs : FS) : Prop :=
  fs !! DB_FILE = old \/ fs !! DB_FILE = Some (Json new).

(** ** Feeds *)

(** A retrieval that does not succeed: the fetch rejects, the response is
    not 2xx, or its body is not JSON. *)
Definition unsuccessful (feed : FetchOutcome) : Prop :=
  match feed with
  | Rejected => True
  | Response ok _ body => ok = false \/ body = None
  end.


(** The result of a pass that gets through to the loop and to the end of
    it, for the ledger [db] and the streams [streams]. *)
Definition completed (toLocaleString : value -> string) (toISOString_now : nat -> string)
    (posts_insert : nat -> Request -> option value)
    (fs : FS) (db : DB) (streams : list json) : PassResult :=
  let r := loop toLocaleString toISOString_now posts_insert streams
             (default ∅ (postedIds db)) 0 in
  let db' := {| postedIds := Some (lr_posted r); refresh_token := refresh_token db |} in
  {| pass_events := (Fetch :: lr_events r ++ map Fs (writeDB db'))%list;
     pass_fs := apply_ops (writeDB db') fs;
     pass_completion := Return {| createdCount := length (lr_created r);
                                  created := lr_created r |} |}.

(** ** Conversions that return *)

Definition returns {A} (c : Completion A) : Prop := exists a, c = Return a.

(** The values [String] converts: all but the objects with a [toString]
    of their own and the arrays that hold one, at any depth of arrays. *)
Fixpoint convertible (j : json) : bool :=
  match j with
  | JArr xs => forallb convertible xs
  | JObj props =>
      match lookup_prop "toString" props with
      | Some _ => false
      | None => true
      end
  | _ => true
  end.

Definition convertible_value (v : value) : bool :=
  match v with
  | None => true
  | Some j => convertible j
  end.

(** The values that a turn of the loop converts to text: the identity
    (line 140), the start time (146), the poster (148), the category (150),
    the tag (153) and the embed URL (154). *)
Definition texts (s : json) : list value :=
  [ prop s "id" <||> prop s "uri_name" <||> prop s "name" <||> prop s "title"
      <||> (prop s "tag" <||> Some (JStr ""));
    prop s "starts_at";
    prop s "poster";
    prop s "_category" <||> prop s "category_name" <||> Some (JStr "");
    prop s "tag" <||> Some (JStr "");
    iframe s ].

Definition renderable (s : json) : bool := forallb convertible_value (texts s).

(** A stream the loop can take to the end of its turn: it is not [null],
    and its identity and its body can be computed. *)
Definition renders (toLocaleString : value -> string) (s : json) : Prop :=
  s <> JNull /\ returns (identity s) /\ returns (content toLocaleString s).

(** The identities of the streams, in their order. *)
Definition sids_of (streams : list json) : list string :=
  flat_map (fun s => match identity s with
                     | Return sid => [sid]
                     | Throw _ => []
                     end) streams.



(** ** Sample worlds, ledgers and feeds *)

Definition sample_locale : value -> string := fun _ => "1/1/2026, 8:00:00 PM".
Definition sample_clock : nat -> string := fun _ => "2026-01-01T20:00:00.000Z".

(** Blogger accepts every post. *)
Definition accept_all : nat -> Request -> option value :=
  fun _ _ => Some (Some (JStr "8847")).

(** Blogger rejects the [k]-th call of the pass and accepts the others. *)
Definition reject_nth (k : nat) : nat -> Request -> option value :=
  fun n _ => if Nat.eqb n k then None else Some (Some (JStr "8847")).

Definition stream_with_id (id : string) : json := JObj [("id", JStr id)].

Definition sample_entry : PublishedEntry :=
  {| entry_postId := Some (JStr "31");
     entry_createdAt := "2025-12-31T10:00:00.000Z";
     entry_title := Some (JStr "Match a") |}.

(** A ledger with a credential and one published identity, "a". *)
Definition sample_db : DB :=
  {| postedIds := Some {[ "a" := sample_entry ]};
     refresh_token := Some (JStr "1//token") |}.

Definition sample_fs : FS := {[ DB_FILE := Json sample_db ]}.

(** The file system before the first pass: no ledger file. *)
Definition no_ledger_fs : FS := ∅.

(** A ledger with a credential and nothing published. *)
Definition blank_db : DB :=
  {| postedIds := Some ∅; refresh_token := Some (JStr "1//token") |}.

Definition blank_fs : FS := {[ DB_FILE := Json blank_db ]}.

Definition flat_feed (streams : list json) : FetchOutcome :=
  Response true "200" (Some (JArr streams)).

(** ** Texts and their special characters *)

(** The five characters [escapeHtml] replaces. *)
Definition special (c : ascii) : bool := Ascii.eqb c "&" || markup c.

Fixpoint has_special (s : string) : bool :=
  match s with
  | EmptyString => false
  | String c rest => special c || has_special rest
  end.

(** ** Streams *)

(** A stream none of whose identity fields is truthy. *)
Definition anonymous (s : json) : Prop :=
  truthy (prop s "id") = false /\ truthy (prop s "uri_name") = false /\
  truthy (prop s "name") = false /\ truthy (prop s "title") = false /\
  truthy (prop s "tag") = false.

Definition is_object (s : json) : bool :=
  match s with
  | JObj _ => true
  | _ => false
  end.

(** The writes among the events of a pass. *)
Fixpoint writes (evs : list Event) : list FsOp :=
  match evs with
  | [] => []
  | Fs op :: rest => op :: writes rest
  | _ :: rest => writes rest
  end.

(** * Properties *)


(** ** Strings *)

#[local] Arguments String.append !_ _ / : simpl nomatch.

Lemma append_empty_r (a : string) : a +:+ "" = a.
Proof. induction a as [|x a IH]; simpl; [reflexivity | now rewrite IH]. Qed.

Lemma markup_of_app (a b : string) :
  markup_of (a +:+ b) = markup_of a +:+ markup_of b.
Proof.
  induction a as [|c a IH]; simpl; [reflexivity|].
  destruct (markup c); simpl; now rewrite IH.
Qed.

(** The cases of [entity]: one of the five characters, or another one. *)
Lemma entity_cases (c : ascii) :
  (c = "&"%char /\ entity c = "&amp;") \/
  (c = "<"%char /\ entity c = "&lt;") \/
  (c = ">"%char /\ entity c = "&gt;") \/
  (c = dquote /\ entity c = "&quot;") \/
  (c = squote /\ entity c = "&#39;") \/
  (Ascii.eqb c "&" = false /\ markup c = false /\ entity c = String c "").
Proof.
  unfold entity, markup.
  destruct (Ascii.eqb c "&") eqn:E1; [apply Ascii.eqb_eq in E1; auto|].
  destruct (Ascii.eqb c "<") eqn:E2; [apply Ascii.eqb_eq in E2; auto|].
  destruct (Ascii.eqb c ">") eqn:E3; [apply Ascii.eqb_eq in E3; auto 6|].
  destruct (Ascii.eqb c dquote) eqn:E4; [apply Ascii.eqb_eq in E4; auto 8|].
  destruct (Ascii.eqb c squote) eqn:E5; [apply Ascii.eqb_eq in E5; auto 10|].
  do 5 right. auto.
Qed.

Lemma markup_of_replace_special (t : string) : markup_of (replace_special t) = "".
Proof.
  induction t as [|c t IH]; simpl; [reflexivity|].
  rewrite markup_of_app, IH, append_empty_r.
  destruct (entity_cases c) as [[-> ->]|[[-> ->]|[[-> ->]|[[-> ->]|[[-> ->]|(_ & Hm & ->)]]]]];
    try reflexivity.
  simpl. now rewrite Hm.
Qed.

Lemma prefix_empty (s : string) : String.prefix "" s = true.
Proof. now destruct s. Qed.

Lemma unescape_replace_special (t : string) : unescape (replace_special t) = t.
Proof.
  unfold unescape.
  induction t as [|c t IH]; simpl; [reflexivity|].
  destruct (entity_cases c) as [[-> ->]|[[-> ->]|[[-> ->]|[[-> ->]|[[-> ->]|(Ha & _ & ->)]]]]];
    simpl; rewrite ?prefix_empty, ?IH; try reflexivity.
  now rewrite Ha.
Qed.

(** ** Completions *)

Lemma bind_Return {A B} (c : Completion A) (f : A -> Completion B) (b : B) :
  (c ≫= f) = Return b <-> exists a, c = Return a /\ f a = Return b.
Proof.
  unfold mbind, Completion_bind. destruct c as [a|e]; split.
  - eauto.
  - now intros (a' & [= <-] & H).
  - discriminate.
  - now intros (a' & H & _).
Qed.

Lemma bind_Throw {A B} (c : Completion A) (f : A -> Completion B) (e : Error) :
  (c ≫= f) = Throw e <->
  c = Throw e \/ exists a, c = Return a /\ f a = Throw e.
Proof.
  unfold mbind, Completion_bind. destruct c as [a|e']; split.
  - intros H. right. exists a. now split.
  - intros [H|(a' & [= <-] & H)]; [discriminate | assumption].
  - intros [= ->]. now left.
  - intros [[= ->]|(a' & H & _)]; [reflexivity | discriminate].
Qed.

(** ** Conversion to text *)

Lemma json_ind_arrays (P : json -> Prop) :
  P JNull -> (forall b, P (JBool b)) -> (forall n, P (JNum n)) ->
  (forall s, P (JStr s)) ->
  (forall xs, Forall P xs -> P (JArr xs)) ->
  (forall props, P (JObj props)) ->
  forall j, P j.
Proof.
  intros Hnull Hbool Hnum Hstr Harr Hobj.
  fix IH 1.
  intros [| b | n | s | xs | props];
    [exact Hnull | apply Hbool | apply Hnum | apply Hstr | | apply Hobj].
  apply Harr. induction xs as [|x xs IHxs]; constructor; [apply IH | exact IHxs].
Qed.

Lemma join_cons (f : json -> Completion string) (x y : json) (l : list json) :
  join f (x :: y :: l) = (hd ← element f x; tl ← join f (y :: l); Return (hd +:+ "," +:+ tl)).
Proof. reflexivity. Qed.

(** [String] throws nothing but a TypeError, and it does so exactly on the
    values that are not [convertible]. *)
Lemma toString_convertible (j : json) :
  (convertible j = true -> returns (toString j)) /\
  (convertible j = false -> toString j = Throw TypeError).
Proof.
  induction j as [| b | n | s | xs IH | props] using json_ind_arrays;
    try (split; [intros _; eexists; reflexivity | discriminate]).
  - split; [intros _; destruct b; eexists; reflexivity | discriminate].
  - simpl.
    assert (Helt : forall x, (convertible x = true -> returns (toString x)) /\
                             (convertible x = false -> toString x = Throw TypeError) ->
              (convertible x = true -> returns (element toString x)) /\
              (convertible x = false -> element toString x = Throw TypeError)).
    { intros x Hx. destruct x; simpl in *; auto.
      split; [intros _; eexists; reflexivity | discriminate]. }
    induction IH as [|x xs Hx Hxs IHxs]; [split; [eexists; reflexivity | discriminate]|].
    apply Helt in Hx. destruct Hx as [Hx1 Hx2].
    destruct xs as [|y xs].
    + simpl. rewrite andb_true_r. split; auto.
    + rewrite join_cons. change (forallb convertible (x :: y :: xs))
        with (convertible x && forallb convertible (y :: xs)).
      destruct IHxs as [IH1 IH2]. split.
      * intros [Hcx Hcr]%andb_true_iff.
        destruct (Hx1 Hcx) as [hd ->]. destruct (IH1 Hcr) as [tl ->].
        eexists. reflexivity.
      * intros H. destruct (convertible x) eqn:Hcx.
        -- destruct (Hx1 eq_refl) as [hd ->]. simpl in H. now rewrite (IH2 H).
        -- now rewrite (Hx2 eq_refl).
  - simpl. destruct (lookup_prop "toString" props); split;
      try discriminate; try reflexivity. intros _. eexists. reflexivity.
Qed.

Lemma toString_throws (j : json) (e : Error) : toString j = Throw e -> e = TypeError.
Proof.
  intros H. destruct (toString_convertible j) as [H1 H2].
  destruct (convertible j).
  - destruct (H1 eq_refl) as [t Ht]. congruence.
  - rewrite (H2 eq_refl) in H. congruence.
Qed.

Lemma String_throws (v : value) (e : Error) : String_ v = Throw e -> e = TypeError.
Proof. destruct v; simpl; [apply toString_throws | discriminate]. Qed.

(** ** escapeHtml *)

Lemma escapeHtml_Return (v : value) (out : string) :
  escapeHtml v = Return out <->
  exists text, String_ (v <||> Some (JStr "")) = Return text /\ out = replace_special text.
Proof.
  unfold escapeHtml. rewrite bind_Return. split.
  - intros (t & Ht & [= <-]). eauto.
  - intros (t & Ht & ->). eauto.
Qed.

Lemma escapeHtml_throws (v : value) (e : Error) : escapeHtml v = Throw e -> e = TypeError.
Proof.
  unfold escapeHtml. rewrite bind_Throw.
  intros [H|(t & _ & H)]; [now apply String_throws in H | discriminate].
Qed.

Lemma escapeHtml_text (t : string) :
  escapeHtml (Some (JStr t)) = Return (replace_special t).
Proof. unfold escapeHtml, or_else. simpl. destruct t; reflexivity. Qed.

Lemma markup_of_escapeHtml (v : value) (out : string) :
  escapeHtml v = Return out -> markup_of out = "".
Proof.
  intros (t & _ & ->)%escapeHtml_Return. apply markup_of_replace_special.
Qed.

Lemma escapeHtml_falsy (v : value) : truthy v = false -> escapeHtml v = Return "".
Proof. intros H. unfold escapeHtml, or_else. now rewrite H. Qed.

Lemma escapeHtml_truthy (v : value) :
  truthy v = true ->
  escapeHtml v = (text ← String_ v; Return (replace_special text)).
Proof. intros H. unfold escapeHtml, or_else. now rewrite H. Qed.

(** ** The body of a post *)

Lemma content_template (fmt : value -> string) (s : json) :
  content fmt s =
  (starts ← startsAt fmt s;
   image ← escaped_when (truthy (prop s "poster")) (prop s "poster");
   category ← escapeHtml (prop s "_category" <||> prop s "category_name" <||> Some (JStr ""));
   tag ← escapeHtml (prop s "tag" <||> Some (JStr ""));
   embed ← escaped_when (truthy (iframe s)) (iframe s);
   Return (template (truthy (prop s "poster")) (truthy (iframe s))
             category (replace_special starts) image tag embed)).
Proof.
  unfold content, poster, iframe_block, escaped_when, template.
  destruct (startsAt fmt s) as [starts|e]; [|reflexivity].
  unfold mbind at 1 7, Completion_bind.
  destruct (truthy (prop s "poster")).
  - destruct (escapeHtml (prop s "poster")) as [src|e]; [|reflexivity].
    unfold mbind at 1 2 7 8, Completion_bind.
    destruct (escapeHtml (_ <||> _ <||> _)) as [category|e]; [|reflexivity].
    unfold mbind at 1 6, Completion_bind. rewrite escapeHtml_text.
    unfold mbind at 1, Completion_bind.
    destruct (escapeHtml (prop s "tag" <||> _)) as [tag|e]; [|reflexivity].
    unfold mbind, Completion_bind.
    destruct (truthy (iframe s)); [|reflexivity].
    destruct (escapeHtml (iframe s)); reflexivity.
  - unfold mbind at 1 6, Completion_bind.
    destruct (escapeHtml (_ <||> _ <||> _)) as [category|e]; [|reflexivity].
    unfold mbind at 1 6, Completion_bind. rewrite escapeHtml_text.
    unfold mbind at 1, Completion_bind.
    destruct (escapeHtml (prop s "tag" <||> _)) as [tag|e]; [|reflexivity].
    unfold mbind, Completion_bind.
    destruct (truthy (iframe s)); [|reflexivity].
    destruct (escapeHtml (iframe s)); reflexivity.
Qed.

Lemma escaped_when_markup (b : bool) (v : value) (out : string) :
  escaped_when b v = Return out -> markup_of out = "".
Proof.
  destruct b; simpl; [apply markup_of_escapeHtml | now intros [= <-]].
Qed.

Lemma content_Return (fmt : value -> string) (s : json) (body : string) :
  content fmt s = Return body ->
  exists starts image category tag embed,
    startsAt fmt s = Return starts /\
    escaped_when (truthy (prop s "poster")) (prop s "poster") = Return image /\
    escapeHtml (prop s "_category" <||> prop s "category_name" <||> Some (JStr ""))
      = Return category /\
    escapeHtml (prop s "tag" <||> Some (JStr "")) = Return tag /\
    escaped_when (truthy (iframe s)) (iframe s) = Return embed /\
    body = template (truthy (prop s "poster")) (truthy (iframe s))
             category (replace_special starts) image tag embed.
Proof.
  rewrite content_template.
  intros (starts & H1 & H)%bind_Return. apply bind_Return in H as (image & H2 & H).
  apply bind_Return in H as (category & H3 & H).
  apply bind_Return in H as (tag & H4 & H).
  apply bind_Return in H as (embed & H5 & [= <-]).
  exists starts, image, category, tag, embed. auto 10.
Qed.

Lemma markup_of_template (p i : bool) (a b c d e : string) :
  markup_of a = "" -> markup_of b = "" -> markup_of c = "" ->
  markup_of d = "" -> markup_of e = "" ->
  markup_of (template p i a b c d e) = markup_of (template p i "" "" "" "" "").
Proof.
  intros Ha Hb Hc Hd He. unfold template.
  destruct p, i; rewrite !markup_of_app, ?Ha, ?Hb, ?Hc, ?Hd, ?He; reflexivity.
Qed.


(** C5. Every feed value that lines 148-154 put into the body (category,
    start time, poster URL, tag, embed URL) goes through [escapeHtml]; what
    [escapeHtml] returns is the text of its argument with each ampersand,
    less-than, greater-than, double quote and single quote replaced by
    [&amp;], [&lt;], [&gt;], [&quot;], [&#39;] and nothing else changed
    (decoding the entities gives the text back), so it holds none of the
    characters that open or close a tag or an attribute value, and the markup
    characters of a body are those of the fixed template whatever the feed
    values are. *)
Theorem body_fields_escaped :
  (entity "&" = "&amp;" /\ entity "<" = "&lt;" /\ entity ">" = "&gt;" /\
   entity dquote = "&quot;" /\ entity squote = "&#39;") /\
  (forall c t, replace_special (String c t) = entity c +:+ replace_special t) /\
  (forall v : value,
     escapeHtml v
       = (text ← String_ (v <||> Some (JStr "")); Return (replace_special text)) /\
     forall out, escapeHtml v = Return out ->
       String_ (v <||> Some (JStr "")) = Return (unescape out) /\
       markup_of out = "") /\
  (forall (fmt : value -> string) (s : json),
     content fmt s =
       (starts ← startsAt fmt s;
        image ← escaped_when (truthy (prop s "poster")) (prop s "poster");
        category ← escapeHtml (prop s "_category" <||> prop s "category_name"
                               <||> Some (JStr ""));
        tag ← escapeHtml (prop s "tag" <||> Some (JStr ""));
        embed ← escaped_when (truthy (iframe s)) (iframe s);
        Return (template (truthy (prop s "poster")) (truthy (iframe s))
                  category (replace_special starts) image tag embed)) /\
     forall body, content fmt s = Return body ->
       markup_of body =
       markup_of (template (truthy (prop s "poster")) (truthy (iframe s)) "" "" "" "" "")).
Proof.
  split; [repeat split|].
  split; [reflexivity|].
  split.
  - intros v. split; [reflexivity|].
    intros out (text & Htext & ->)%escapeHtml_Return.
    rewrite unescape_replace_special. split; [assumption|].
    apply markup_of_replace_special.
  - intros fmt s. split; [apply content_template|].
    intros body (starts & image & category & tag & embed
                 & _ & H2 & H3 & H4 & H5 & ->)%content_Return.
    apply markup_of_template.
    + now apply markup_of_escapeHtml in H3.
    + apply markup_of_replace_special.
    + now apply escaped_when_markup in H2.
    + now apply markup_of_escapeHtml in H4.
    + now apply escaped_when_markup in H5.
Qed.

Lemma body_fields_escaped_witness :
  String_ (Some (JStr "a<b") <||> Some (JStr ""))
    = Return (unescape "a&lt;b") /\
  markup_of "a&lt;b" = "".
Proof.
  apply (proj2 (proj1 (proj2 (proj2 body_fields_escaped)) (Some (JStr "a<b")))).
  reflexivity.
Defined.




(** ** Identity of a stream *)

Lemma lookup_set_prop_eq (k : string) (v : json) (props : list (string * json)) :
  lookup_prop k (set_prop k v props) = Some v.
Proof.
  induction props as [|[k' v'] props IH]; simpl.
  - now rewrite String.eqb_refl.
  - destruct (String.eqb k k') eqn:E; simpl; rewrite ?String.eqb_refl, ?E; auto.
Qed.

Lemma lookup_set_prop_ne (k k0 : string) (v : json) (props : list (string * json)) :
  k0 <> k -> lookup_prop k0 (set_prop k v props) = lookup_prop k0 props.
Proof.
  intros Hne. apply String.eqb_neq in Hne.
  induction props as [|[k' v'] props IH]; simpl.
  - now rewrite Hne.
  - destruct (String.eqb k k') eqn:E; simpl.
    + apply String.eqb_eq in E. subst k'. now rewrite Hne.
    + now rewrite IH.
Qed.

Lemma prop_set_category (c s : json) (k : string) :
  k <> "_category" -> prop (set_category c s) k = prop s k.
Proof.
  intros Hne. destruct s; simpl; try reflexivity.
  now apply lookup_set_prop_ne.
Qed.

Lemma or_else_l (a b : value) : truthy a = true -> a <||> b = a.
Proof. intros H. unfold or_else. now rewrite H. Qed.

Lemma or_else_r (a b : value) : truthy a = false -> a <||> b = b.
Proof. intros H. unfold or_else. now rewrite H. Qed.

(** Resolves the chains of [<||>] whose heads are known. *)
Ltac or_else_known :=
  repeat match goal with
    | H : truthy ?a = true |- context [?a <||> ?b] => rewrite (or_else_l a b H)
    | H : truthy ?a = false |- context [?a <||> ?b] => rewrite (or_else_r a b H)
    end.

Lemma identity_spec_order (s : json) : identity s = resolve spec_order s.
Proof.
  unfold identity, resolve, spec_order. simpl.
  destruct (truthy (prop s "id")) eqn:E1; [now or_else_known|].
  destruct (truthy (prop s "uri_name")) eqn:E2; [now or_else_known|].
  destruct (truthy (prop s "name")) eqn:E3; [now or_else_known|].
  destruct (truthy (prop s "title")) eqn:E4; [now or_else_known|].
  destruct (truthy (prop s "tag")) eqn:E5; now or_else_known.
Qed.

Lemma identity_set_category (c s : json) :
  identity (set_category c s) = identity s.
Proof. unfold identity. now rewrite !prop_set_category by discriminate. Qed.

Lemma prop_fallback_id (s : json) (k : string) :
  k <> "id" -> prop (fallback_id s) k = prop s k.
Proof.
  intros Hne. destruct s; try reflexivity. unfold fallback_id.
  destruct (_ && _); [|reflexivity]. simpl. now apply lookup_set_prop_ne.
Qed.

Lemma prop_fallback_id_id (s : json) :
  prop (fallback_id s) "id" =
  if truthy (prop s "id") then prop s "id"
  else if truthy (prop s "tag") then prop s "tag" else prop s "id".
Proof.
  destruct s as [| b | n | t | xs | props]; try reflexivity. unfold fallback_id.
  destruct (truthy (prop (JObj props) "id")) eqn:Eid; [reflexivity|].
  destruct (truthy (prop (JObj props) "tag")) eqn:Etag; [|reflexivity].
  simpl in *. rewrite lookup_set_prop_eq.
  now destruct (lookup_prop "tag" props).
Qed.

Lemma identity_nested_order (c s : json) :
  identity (set_category c (fallback_id s)) = resolve nested_order s.
Proof.
  rewrite identity_set_category.
  unfold identity, resolve, nested_order. simpl.
  rewrite (prop_fallback_id s "uri_name"), (prop_fallback_id s "name"),
    (prop_fallback_id s "title"), (prop_fallback_id s "tag") by discriminate.
  rewrite prop_fallback_id_id.
  destruct (truthy (prop s "id")) eqn:E1; cbv iota; [now or_else_known|].
  destruct (truthy (prop s "tag")) eqn:E5; cbv iota; [now or_else_known|].
  or_else_known.
  destruct (truthy (prop s "uri_name")) eqn:E2; [now or_else_known|].
  destruct (truthy (prop s "name")) eqn:E3; [now or_else_known|].
  destruct (truthy (prop s "title")) eqn:E4; now or_else_known.
Qed.

Lemma collect_group_no_null (c : json) (ss : list json) :
  Forall (fun s => s <> JNull) ss ->
  collect_group c ss = Return (map (fun s => set_category c (fallback_id s)) ss).
Proof.
  induction 1 as [|s ss Hs _ IH]; [reflexivity|].
  simpl. rewrite IH. now destruct s.
Qed.

(** C2, as the code has it. A stream of the flat shape reaches the loop as
    it is in the feed, and its identity is the text of the first truthy
    field in the order id, uri_name, name, title, tag (the empty text when
    none is truthy).  A stream of the nested shape is first given its tag as
    id when its id is falsy and its tag truthy (line 127), so that its
    identity is the text of the first truthy field in the order id, tag,
    uri_name, name, title: with a tag and a name and no id it resolves to
    the tag. *)
Theorem identity_precedence_by_shape :
  (forall s, identity s = resolve spec_order s) /\
  (forall ss, collect_streams (JArr ss) = Return ss) /\
  (forall c ss, Forall (fun s => s <> JNull) ss ->
     collect_group c ss = Return (map (fun s => set_category c (fallback_id s)) ss)) /\
  (forall c s, identity (set_category c (fallback_id s)) = resolve nested_order s).
Proof.
  split; [apply identity_spec_order|].
  split; [reflexivity|].
  split; [apply collect_group_no_null|apply identity_nested_order].
Qed.

Lemma identity_precedence_by_shape_witness :
  collect_group (JStr "Soccer")
    [JObj [("tag", JStr "t7"); ("name", JStr "Team A vs Team B")]]
  = Return [JObj [("tag", JStr "t7"); ("name", JStr "Team A vs Team B");
                  ("id", JStr "t7"); ("_category", JStr "Soccer")]].
Proof.
  apply (proj1 (proj2 (proj2 identity_precedence_by_shape))).
  repeat constructor; discriminate.
Defined.

(** C2 fails on the nested shape: a stream with a tag and a name and no id
    is published under its tag, where the order of the specification gives
    its name. *)
Lemma identity_precedence_nested_counterexample :
  let s := JObj [("tag", JStr "t7"); ("name", JStr "Team A vs Team B")] in
  let j := JObj [("events", JObj [("streams",
             JArr [JObj [("category", JStr "Soccer"); ("streams", JArr [s])]])])] in
  resolve spec_order s = Return "Team A vs Team B" /\
  exists s', collect_streams j = Return [s'] /\ identity s' = Return "t7" /\
             identity s' <> resolve spec_order s.
Proof.
  split; [reflexivity|]. eexists. split; [reflexivity|]. split; [reflexivity|].
  vm_compute. discriminate.
Qed.

(** ** The loop *)

Lemma posted_insert (m : gmap string PublishedEntry) (k x : string) (e : PublishedEntry) :
  posted (<[k := e]> m) x = posted m x || String.eqb x k.
Proof.
  unfold posted. destruct (String.eqb_spec x k) as [->|Hne].
  - rewrite lookup_insert_eq. now rewrite orb_true_r.
  - rewrite lookup_insert_ne by congruence. now rewrite orb_false_r.
Qed.

Lemma posted_lookup (m : gmap string PublishedEntry) (x : string) (e : PublishedEntry) :
  m !! x = Some e -> posted m x = true.
Proof. intros H. unfold posted. now rewrite H. Qed.

Lemma not_posted_lookup (m : gmap string PublishedEntry) (x : string) :
  posted m x = false -> m !! x = None.
Proof. unfold posted. now destruct (m !! x). Qed.

Lemma published_inserted (evs : list Event) (x : string) :
  x ∈ published_sids evs -> x ∈ inserted_sids evs.
Proof.
  induction evs as [|[| sid r [id|] | op] evs IH]; simpl; auto.
  - rewrite !elem_of_cons. tauto.
  - rewrite elem_of_cons. tauto.
Qed.




Lemma keep_first_subset (l : list string) (x : string) : x ∈ keep_first l -> x ∈ l.
Proof.
  induction l as [|a l IH]; simpl; [auto|].
  rewrite !elem_of_cons. intros [->|H]; [auto|].
  right. apply IH. apply list_elem_of_In in H. apply List.filter_In in H as [H _].
  now apply list_elem_of_In.
Qed.



Lemma json_null_dec (s : json) : {s = JNull} + {s <> JNull}.
Proof. destruct s; (now left) || (right; discriminate). Qed.

Lemma startsAt_throws (fmt : value -> string) (s : json) (e : Error) :
  startsAt fmt s = Throw e -> e = TypeError.
Proof.
  unfold startsAt. destruct (truthy (prop s "starts_at")); [|discriminate].
  rewrite bind_Throw. intros [H|(t & _ & H)]; [now apply String_throws in H | discriminate].
Qed.

Lemma escaped_when_throws (b : bool) (v : value) (e : Error) :
  escaped_when b v = Throw e -> e = TypeError.
Proof. destruct b; simpl; [apply escapeHtml_throws | discriminate]. Qed.

Lemma content_throws (fmt : value -> string) (s : json) (e : Error) :
  content fmt s = Throw e -> e = TypeError.
Proof.
  rewrite content_template.
  intros [H|(? & _ & H)]%bind_Throw; [now apply startsAt_throws in H|].
  apply bind_Throw in H as [H|(? & _ & H)]; [now apply escaped_when_throws in H|].
  apply bind_Throw in H as [H|(? & _ & H)]; [now apply escapeHtml_throws in H|].
  apply bind_Throw in H as [H|(? & _ & H)]; [now apply escapeHtml_throws in H|].
  apply bind_Throw in H as [H|(? & _ & H)]; [now apply escaped_when_throws in H|].
  discriminate.
Qed.

(** Whether the body of a stream can be computed does not depend on how
    the locale prints its start time. *)
Lemma content_returns_any_locale (fmt fmt' : value -> string) (s : json) :
  returns (content fmt s) -> returns (content fmt' s).
Proof.
  intros [body (starts & image & category & tag & embed
                & H1 & H2 & H3 & H4 & H5 & _)%content_Return].
  assert (Hs : returns (startsAt fmt' s)).
  { revert H1. unfold startsAt.
    destruct (truthy (prop s "starts_at")); [|eexists; reflexivity].
    intros (t & -> & _)%bind_Return. eexists. reflexivity. }
  destruct Hs as [starts' Hs].
  rewrite content_template, Hs, H2, H3, H4, H5. eexists. reflexivity.
Qed.

Lemma request_Return (fmt : value -> string) (s : json) (sid : string) (req : Request) :
  request fmt s sid = Return req <->
  exists body,
    content fmt s = Return body /\
    req = {| req_title := post_title s sid; req_content := body;
             req_labels := [ prop s "_category" <||> Some (JStr "match") ] |}.
Proof.
  unfold request. rewrite bind_Return. split.
  - intros (body & H & [= <-]). eauto.
  - intros (body & H & ->). eauto.
Qed.

Lemma request_Throw (fmt : value -> string) (s : json) (sid : string) (e : Error) :
  request fmt s sid = Throw e -> content fmt s = Throw e.
Proof.
  unfold request. rewrite bind_Throw. intros [H|(? & _ & H)]; [assumption | discriminate].
Qed.

Lemma request_returns (fmt : value -> string) (s : json) (sid : string) :
  returns (content fmt s) -> returns (request fmt s sid).
Proof. intros [body H]. unfold request. rewrite H. eexists. reflexivity. Qed.

Lemma sids_of_cons (s : json) (rest : list json) :
  sids_of (s :: rest)
  = (match identity s with Return sid => [sid] | Throw _ => [] end ++ sids_of rest)%list.
Proof. reflexivity. Qed.

Section Loop.

Variable toLocaleString : value -> string.
Variable toISOString_now : nat -> string.
Variable posts_insert : nat -> Request -> option value.

Let run := loop toLocaleString toISOString_now posts_insert.
Let req_of := request toLocaleString.

(** One turn of the loop on a stream that is not [null]. *)
Lemma loop_cons (s : json) (rest : list json) (m : gmap string PublishedEntry) (n : nat) :
  s <> JNull ->
  run (s :: rest) m n =
  match identity s with
  | Throw e => stopped m e
  | Return sid =>
      if String.eqb sid "" then run rest m n
      else if posted m sid then run rest m n
      else
        match req_of s sid with
        | Throw e => stopped m e
        | Return req =>
            match posts_insert n req with
            | Some id =>
                let r := run rest (<[sid := {| entry_postId := id;
                                                entry_createdAt := toISOString_now n;
                                                entry_title := post_title s sid |}]> m) (S n) in
                {| lr_events := Insert sid req (Some id) :: lr_events r;
                   lr_posted := lr_posted r;
                   lr_created := {| created_sid := sid; created_postId := id;
                                    created_title := post_title s sid |} :: lr_created r;
                   lr_completion := lr_completion r |}
            | None =>
                let r := run rest m (S n) in
                {| lr_events := Insert sid req None :: lr_events r;
                   lr_posted := lr_posted r;
                   lr_created := lr_created r;
                   lr_completion := lr_completion r |}
            end
        end
  end.
Proof.
  intros Hs. unfold run, req_of.
  destruct s; try congruence; cbn [loop]; cbv zeta;
    (destruct (identity _) as [sid|e]; [|reflexivity]);
    (destruct (String.eqb sid ""); [reflexivity|]);
    (destruct (posted m sid); [reflexivity|]);
    (destruct (request _ _ sid) as [req|e]; [|reflexivity]);
    destruct (posts_insert n req); reflexivity.
Qed.

Lemma loop_null (rest : list json) (m : gmap string PublishedEntry) (n : nat) :
  run (JNull :: rest) m n = stopped m TypeError.
Proof. reflexivity. Qed.

Lemma loop_nil (m : gmap string PublishedEntry) (n : nat) :
  run [] m n =
  {| lr_events := []; lr_posted := m; lr_created := [];
     lr_completion := Return tt |}.
Proof. reflexivity. Qed.

(** Case analysis on the first turn of [run (s :: rest) m n]: the stream
    is null; its identity is empty; it is posted; Blogger answers; Blogger
    fails; the body throws; the identity throws. *)
Ltac loop_answer n req :=
  let Ea := fresh "Eanswer" in
  destruct (posts_insert n req) as [?id|] eqn:Ea.

Ltac loop_request s sid n :=
  let Er := fresh "Erequest" in
  destruct (req_of s sid) as [?req|?e] eqn:Er;
  [ match goal with req : Request |- _ => loop_answer n req end | ].

Ltac loop_guards s m n :=
  let Ei := fresh "Eidentity" in
  let E0 := fresh "Eempty" in
  let Ep := fresh "Eposted" in
  destruct (identity s) as [?sid|?e] eqn:Ei;
  [ match goal with sid : string |- _ =>
      destruct (String.eqb sid "") eqn:E0;
      [ | destruct (posted m sid) eqn:Ep; [ | loop_request s sid n ] ]
    end
  | ].

Ltac loop_turn s rest m n :=
  let Hs := fresh "Hnull" in
  destruct (json_null_dec s) as [->|Hs];
  [ rewrite loop_null
  | rewrite (loop_cons s rest m n Hs); cbv zeta; loop_guards s m n ].

(** An identity the published map answers for is never sent to Blogger,
    and its entry is left as it is. *)
Lemma loop_posted_untouched (streams : list json) :
  forall (m : gmap string PublishedEntry) (n : nat) (x : string),
    posted m x = true ->
    (x ∉ inserted_sids (lr_events (run streams m n))) /\
    lr_posted (run streams m n) !! x = m !! x.
Proof.
  induction streams as [|s rest IH]; intros m n x Hx.
  - rewrite loop_nil. simpl. split; [apply not_elem_of_nil | reflexivity].
  - loop_turn s rest m n; simpl; auto;
      try (split; [apply not_elem_of_nil | reflexivity]).
    + assert (Hne : x <> sid) by (intros ->; congruence).
      destruct (IH (<[sid := {| entry_postId := id;
                       entry_createdAt := toISOString_now n;
                       entry_title := post_title s sid |}]> m) (S n) x)
        as [H1 H2].
      { rewrite posted_insert, Hx. reflexivity. }
      split.
      * rewrite not_elem_of_cons. auto.
      * rewrite H2. now apply lookup_insert_ne.
    + assert (Hne : x <> sid) by (intros ->; congruence).
      destruct (IH m (S n) x Hx) as [H1 H2].
      split; [rewrite not_elem_of_cons; auto | exact H2].
Qed.

(** Blogger is called only for identities the published map does not
    answer for. *)
Lemma loop_inserted_not_posted (streams : list json)
    (m : gmap string PublishedEntry) (n : nat) (x : string) :
  x ∈ inserted_sids (lr_events (run streams m n)) -> posted m x = false.
Proof.
  intros Hin. destruct (posted m x) eqn:E; [|reflexivity].
  now destruct (loop_posted_untouched streams m n x E).
Qed.

(** No identity is published twice in a pass. *)
Lemma loop_published_NoDup (streams : list json) :
  forall (m : gmap string PublishedEntry) (n : nat),
    NoDup (published_sids (lr_events (run streams m n))).
Proof.
  induction streams as [|s rest IH]; intros m n.
  - rewrite loop_nil. constructor.
  - loop_turn s rest m n; simpl; auto; try constructor.
    + intros Hin. apply published_inserted in Hin.
      apply loop_inserted_not_posted in Hin.
      rewrite posted_insert, String.eqb_refl, orb_true_r in Hin. discriminate.
    + apply IH.
Qed.

(** [created] lists the identities published, in the order of the calls. *)
Lemma loop_created_published (streams : list json) :
  forall (m : gmap string PublishedEntry) (n : nat),
    map created_sid (lr_created (run streams m n))
    = published_sids (lr_events (run streams m n)).
Proof.
  induction streams as [|s rest IH]; intros m n.
  - reflexivity.
  - loop_turn s rest m n; simpl; auto. now rewrite IH.
Qed.

(** The published map after the loop: the entries it had, and one more for
    each identity published. *)
Lemma loop_posted_after (streams : list json) :
  forall (m : gmap string PublishedEntry) (n : nat) (x : string),
    (x ∉ published_sids (lr_events (run streams m n)) ->
     lr_posted (run streams m n) !! x = m !! x) /\
    (x ∈ published_sids (lr_events (run streams m n)) ->
     is_Some (lr_posted (run streams m n) !! x)).
Proof.
  induction streams as [|s rest IH]; intros m n x.
  - rewrite loop_nil. simpl. split; [reflexivity|]. intros H. now apply elem_of_nil in H.
  - loop_turn s rest m n; simpl; auto;
      try (split; [reflexivity|]; intros H; now apply elem_of_nil in H).
    set (m' := <[sid := _]> m).
    destruct (IH m' (S n) x) as [H1 H2]. split.
    + intros Hx. apply not_elem_of_cons in Hx as [Hne Hx].
      rewrite (H1 Hx). unfold m'. now apply lookup_insert_ne.
    + intros Hx.
      destruct (decide (x ∈ published_sids (lr_events (run rest m' (S n)))))
        as [Hin|Hout]; [now apply H2|].
      apply elem_of_cons in Hx as [->|Hx]; [|contradiction].
      rewrite (H1 Hout). unfold m'. rewrite lookup_insert_eq. eauto.
Qed.

Lemma loop_posted_after_iff (streams : list json)
    (m : gmap string PublishedEntry) (n : nat) (x : string) :
  posted (lr_posted (run streams m n)) x = false <->
  posted m x = false /\ (x ∉ published_sids (lr_events (run streams m n))).
Proof.
  destruct (loop_posted_after streams m n x) as [H1 H2].
  destruct (decide (x ∈ published_sids (lr_events (run streams m n)))) as [Hin|Hout].
  - destruct (H2 Hin) as [e He]. rewrite (posted_lookup _ _ _ He).
    split; [discriminate | tauto].
  - unfold posted at 1. rewrite (H1 Hout). fold (posted m x). tauto.
Qed.

(** The loop throws nothing but a TypeError. *)
Lemma loop_throws (streams : list json) :
  forall (m : gmap string PublishedEntry) (n : nat) (e : Error),
    lr_completion (run streams m n) = Throw e -> e = TypeError.
Proof.
  induction streams as [|s rest IH]; intros m n e0; [discriminate|].
  loop_turn s rest m n; simpl; eauto.
  - now intros [= <-].
  - intros [= <-]. apply request_Throw, content_throws in Erequest. assumption.
  - intros [= <-]. now apply String_throws in Eidentity.
Qed.

(** The loop runs to its end on streams it can take. *)
Lemma loop_completes (streams : list json) :
  forall (m : gmap string PublishedEntry) (n : nat),
    Forall (renders toLocaleString) streams ->
    lr_completion (run streams m n) = Return tt.
Proof.
  induction streams as [|s rest IH]; intros m n Hall; [reflexivity|].
  apply Forall_cons in Hall as [(Hs & [sid0 Hid] & Hbody) Hall].
  loop_turn s rest m n; simpl; auto; try congruence.
  destruct (request_returns toLocaleString s sid Hbody) as [r Hr].
  unfold req_of in Erequest. congruence.
Qed.

(** What the loop sends to Blogger when it runs to its end: the non-empty
    identities of the streams that the published map does not answer for. *)
Lemma loop_inserted_iff (streams : list json) :
  forall (m : gmap string PublishedEntry) (n : nat) (y : string),
    lr_completion (run streams m n) = Return tt ->
    y ∈ inserted_sids (lr_events (run streams m n)) <->
    y ∈ sids_of streams /\ y <> "" /\ posted m y = false.
Proof.
  induction streams as [|s rest IH]; intros m n y.
  - rewrite loop_nil. simpl. rewrite elem_of_nil. tauto.
  - rewrite sids_of_cons.
    loop_turn s rest m n; simpl; try discriminate; intros Hret.
    + rewrite (IH m n y Hret), elem_of_cons.
      apply String.eqb_eq in Eempty. subst sid. split; [tauto|].
      intros ([->|H] & Hne & Hp); [congruence | tauto].
    + rewrite (IH m n y Hret), elem_of_cons.
      split; [tauto|]. intros ([->|H] & Hne & Hp); [congruence | tauto].
    + apply String.eqb_neq in Eempty.
      rewrite !elem_of_cons, (IH _ (S n) y Hret), posted_insert, orb_false_iff.
      rewrite String.eqb_neq. split.
      * intros [->|(H & Hne & Hp & _)]; tauto.
      * intros ([->|H] & Hne & Hp); [tauto|].
        destruct (decide (y = sid)); tauto.
    + apply String.eqb_neq in Eempty.
      rewrite !elem_of_cons, (IH m (S n) y Hret). split.
      * intros [->|(H & Hne & Hp)]; tauto.
      * intros ([->|H] & Hne & Hp); tauto.
Qed.


End Loop.

(** Entries stay: what the published map answers for before the loop, it
    answers for after it. *)
Lemma loop_posted_stays fmt clock blogger (streams : list json)
    (m : gmap string PublishedEntry) (n : nat) (x : string) :
  posted m x = true -> posted (lr_posted (loop fmt clock blogger streams m n)) x = true.
Proof.
  intros Hx.
  destruct (loop_posted_untouched fmt clock blogger streams m n x Hx) as [_ H].
  unfold posted in *. now rewrite H.
Qed.

(** A loop that ran to its end over the streams runs to its end over them
    again, in whatever world, from a published map that answers for at
    least what the first loop left. *)
Lemma loop_completes_after fmt clock blogger fmt' clock' blogger' (streams : list json) :
  forall (m : gmap string PublishedEntry) (n : nat)
         (m' : gmap string PublishedEntry) (n' : nat),
    lr_completion (loop fmt clock blogger streams m n) = Return tt ->
    (forall x, posted (lr_posted (loop fmt clock blogger streams m n)) x = true ->
               posted m' x = true) ->
    lr_completion (loop fmt' clock' blogger' streams m' n') = Return tt.
Proof.
  induction streams as [|s rest IH]; intros m n m' n'; [reflexivity|].
  destruct (json_null_dec s) as [->|Hs]; [discriminate|].
  rewrite (loop_cons fmt clock blogger s rest m n Hs).
  rewrite (loop_cons fmt' clock' blogger' s rest m' n' Hs). cbv zeta.
  destruct (identity s) as [sid|e]; [|discriminate].
  destruct (String.eqb sid "") eqn:Eempty; [apply IH|].
  assert (Hgrow : forall k (m1 m2 : gmap string PublishedEntry) e1,
            (forall x, posted (lr_posted (loop fmt clock blogger rest m1 k)) x = true ->
                       posted m2 x = true) ->
            forall x, posted (lr_posted (loop fmt clock blogger rest m1 k)) x = true ->
                      posted (<[sid := e1]> m2) x = true).
  { intros k m1 m2 e1 H x Hx. rewrite posted_insert, (H x Hx). reflexivity. }
  destruct (posted m sid) eqn:Eposted.
  - intros Hret Hsub.
    assert (Hp : posted m' sid = true).
    { apply Hsub. now apply loop_posted_stays. }
    rewrite Hp. now apply (IH m n).
  - destruct (request fmt s sid) as [req|e] eqn:Ereq; [|discriminate].
    apply request_Return in Ereq.
    assert (Hreq' : exists req', request fmt' s sid = Return req').
    { apply request_returns.
      apply (content_returns_any_locale fmt fmt').
      destruct Ereq as (body & Hc & _). eexists. exact Hc. }
    destruct Hreq' as [req' ->].
    destruct (posted m' sid).
    + destruct (blogger n req); simpl; intros Hret Hsub;
        (eapply IH; [exact Hret | exact Hsub]).
    + destruct (blogger n req), (blogger' n' req'); simpl; intros Hret Hsub;
        (eapply IH; [exact Hret|]);
        first [exact Hsub | intros x Hx; eapply Hgrow; [exact Hsub | exact Hx]].
Qed.
(** ** The ledger file *)

Lemma readDB_total (fs : FS) : exists db, readDB fs = Return db.
Proof.
  unfold readDB, readFileSync.
  destruct (fs !! DB_FILE) as [[db| db |]|]; simpl; eauto.
Qed.

Lemma readDB_unreadable (fs : FS) :
  fs !! DB_FILE = None \/
  (exists t, fs !! DB_FILE = Some t /\ JSON_parse t = Throw SyntaxError) ->
  readDB fs = Return emptyDB.
Proof.
  unfold readDB, readFileSync. intros [->|(t & -> & Ht)]; simpl; [reflexivity|].
  now rewrite Ht.
Qed.

Lemma readDB_written (fs : FS) (db : DB) :
  readDB (apply_ops (writeDB db) fs) = Return db.
Proof.
  unfold readDB, readFileSync, writeDB, apply_ops. simpl.
  now rewrite lookup_insert_eq.
Qed.

Lemma inserted_sids_app (l1 l2 : list Event) :
  inserted_sids (l1 ++ l2) = (inserted_sids l1 ++ inserted_sids l2)%list.
Proof.
  induction l1 as [|[| sid r a | op] l1 IH]; simpl; auto. now rewrite IH.
Qed.

Lemma published_sids_app (l1 l2 : list Event) :
  published_sids (l1 ++ l2) = (published_sids l1 ++ published_sids l2)%list.
Proof.
  induction l1 as [|[| sid r [id|] | op] l1 IH]; simpl; auto. now rewrite IH.
Qed.

Lemma inserted_sids_Fs (ops : list FsOp) : inserted_sids (map Fs ops) = [].
Proof. induction ops; simpl; auto. Qed.

Lemma published_sids_Fs (ops : list FsOp) : published_sids (map Fs ops) = [].
Proof. induction ops; simpl; auto. Qed.

(** ** The pass *)

Section PassProperties.

Variable toLocaleString : value -> string.
Variable toISOString_now : nat -> string.
Variable posts_insert : nat -> Request -> option value.

Let pass := syncAndCreatePosts toLocaleString toISOString_now posts_insert.
Let run := loop toLocaleString toISOString_now posts_insert.

Lemma pass_completed (fs : FS) (st : number) (j : json) (db : DB) (streams : list json) :
  readDB fs = Return db ->
  truthy (refresh_token db) = true ->
  collect_streams j = Return streams ->
  lr_completion (run streams (default ∅ (postedIds db)) 0) = Return tt ->
  pass fs (Response true st (Some j))
  = completed toLocaleString toISOString_now posts_insert fs db streams.
Proof.
  intros Hdb Htok Hj Hret. unfold pass, syncAndCreatePosts, completed.
  rewrite Hdb, Htok, Hj. simpl. unfold run in Hret. now rewrite Hret.
Qed.

Lemma pass_returned (fs : FS) (st : number) (j : json) (res : SyncResult) :
  pass_completion (pass fs (Response true st (Some j))) = Return res ->
  exists db streams,
    readDB fs = Return db /\ truthy (refresh_token db) = true /\
    collect_streams j = Return streams /\
    lr_completion (run streams (default ∅ (postedIds db)) 0) = Return tt.
Proof.
  unfold pass, syncAndCreatePosts.
  destruct (readDB fs) as [db|e] eqn:Hdb; [|discriminate].
  destruct (truthy (refresh_token db)) eqn:Htok; [|discriminate]. simpl.
  destruct (collect_streams j) as [streams|e] eqn:Hj; [|discriminate].
  destruct (lr_completion _) as [[]|e] eqn:Hc; [|discriminate].
  intros _. exists db, streams. repeat split; auto.
Qed.

Lemma pass_events_shape (fs : FS) (feed : FetchOutcome) :
  exists streams m n,
    (pass_events (pass fs feed) = [] \/
     pass_events (pass fs feed) = [Fetch] \/
     exists ops,
       pass_events (pass fs feed) = (Fetch :: lr_events (run streams m n) ++ map Fs ops)%list) /\
    (pass_fs (pass fs feed) = fs \/
     exists db, readDB fs = Return db /\ m = default ∅ (postedIds db) /\
       readDB (pass_fs (pass fs feed))
       = Return {| postedIds := Some (lr_posted (run streams m n));
                   refresh_token := refresh_token db |}) /\
    (forall db, readDB fs = Return db -> m = default ∅ (postedIds db)).
Proof.
  unfold pass, syncAndCreatePosts.
  destruct (readDB fs) as [db|e] eqn:Hdb.
  2:{ destruct (readDB_total fs) as [db Hdb']. congruence. }
  exists (match feed with
          | Response true _ (Some j) =>
              match collect_streams j with Return ss => ss | Throw _ => [] end
          | _ => []
          end), (default ∅ (postedIds db)), 0.
  split; [|split; [|intros db0 [= <-]; reflexivity]].
  - destruct (truthy (refresh_token db)); simpl; [|auto].
    destruct feed as [|[] st [j|]]; simpl; auto.
    destruct (collect_streams j) as [ss|e]; simpl; auto.
    unfold run. destruct (lr_completion (loop _ _ _ ss _ 0)); simpl.
    + right. right. eexists [_]. reflexivity.
    + right. right. exists []. simpl. now rewrite app_nil_r.
  - destruct (truthy (refresh_token db)); simpl; [|auto].
    destruct feed as [|[] st [j|]]; simpl; auto.
    destruct (collect_streams j) as [ss|e]; simpl; auto.
    unfold run. destruct (lr_completion (loop _ _ _ ss _ 0)); simpl; auto.
    right. exists db. split; [reflexivity|]. split; [reflexivity|].
    apply readDB_written.
Qed.

End PassProperties.

(** ** At most one post per identity *)



(** ** Errors that end a pass before it publishes *)

(** C4. A pass on a ledger without a credential fails with the missing
    credential error and has done nothing by then, not even fetched the
    feed; a pass whose feed retrieval does not succeed (the fetch rejects,
    the response is not 2xx, the body is not JSON) fails with a feed error
    after the fetch alone.  In both cases no post is created and the ledger
    file is left as it was. *)
Theorem pass_level_errors_atomic :
  forall (fmt : value -> string) (clock : nat -> string)
         (blogger : nat -> Request -> option value)
         (fs : FS) (feed : FetchOutcome) (db : DB),
    readDB fs = Return db ->
    (truthy (refresh_token db) = false ->
     exists e, MissingCredentialError e /\
       syncAndCreatePosts fmt clock blogger fs feed
       = {| pass_events := []; pass_fs := fs; pass_completion := Throw e |}) /\
    (truthy (refresh_token db) = true -> unsuccessful feed ->
     exists e, FeedFetchError e /\
       syncAndCreatePosts fmt clock blogger fs feed
       = {| pass_events := [Fetch]; pass_fs := fs; pass_completion := Throw e |}).
Proof.
  intros fmt clock blogger fs feed db Hdb. unfold syncAndCreatePosts. rewrite Hdb.
  split.
  - intros ->. exists NoRefreshToken. now split.
  - intros -> Hfeed. simpl. unfold FeedFetchError.
    destruct feed as [|ok st body]; simpl in *.
    + exists FetchRejected. auto.
    + destruct ok; simpl.
      * destruct Hfeed as [Hok | ->]; [discriminate|].
        exists FetchBodyInvalid. auto.
      * exists (FetchNotOk st). eauto.
Qed.

Lemma pass_level_errors_atomic_witness :
  (exists e, MissingCredentialError e /\
     syncAndCreatePosts sample_locale sample_clock accept_all no_ledger_fs
       (flat_feed [stream_with_id "a"])
     = {| pass_events := []; pass_fs := no_ledger_fs; pass_completion := Throw e |}) /\
  (exists e, FeedFetchError e /\
     syncAndCreatePosts sample_locale sample_clock accept_all sample_fs
       (Response false "503" None)
     = {| pass_events := [Fetch]; pass_fs := sample_fs; pass_completion := Throw e |}).
Proof.
  split.
  - apply (proj1 (pass_level_errors_atomic sample_locale sample_clock accept_all no_ledger_fs
                    (flat_feed [stream_with_id "a"]) emptyDB ltac:(vm_compute; reflexivity))).
    reflexivity.
  - apply (proj2 (pass_level_errors_atomic sample_locale sample_clock accept_all sample_fs
                    (Response false "503" None) sample_db ltac:(vm_compute; reflexivity))).
    + reflexivity.
    + simpl. auto.
Defined.

(** ** Loading a ledger that cannot be read *)

(** C8, as the code has it. [readDB] never throws.  When the ledger file
    cannot be read or its text is not JSON, it returns a fresh ledger with
    an empty published map and a null credential; the pass that loaded it
    therefore fails with the missing credential error before it fetches the
    feed, and publishes nothing.  The published map of the fresh ledger has
    no entry for any identity. *)
Theorem unreadable_ledger_recovery :
  forall fs : FS,
    (exists db, readDB fs = Return db) /\
    (fs !! DB_FILE = None \/
     (exists t, fs !! DB_FILE = Some t /\ JSON_parse t = Throw SyntaxError) ->
     readDB fs = Return emptyDB /\
     forall fmt clock blogger feed,
       syncAndCreatePosts fmt clock blogger fs feed
       = {| pass_events := []; pass_fs := fs;
            pass_completion := Throw NoRefreshToken |}) /\
    postedIds emptyDB = Some ∅ /\
    truthy (refresh_token emptyDB) = false /\
    (forall sid : string, default ∅ (postedIds emptyDB) !! sid = None).
Proof.
  intros fs. split; [apply readDB_total|]. split.
  - intros H. pose proof (readDB_unreadable fs H) as Hdb. split; [assumption|].
    intros fmt clock blogger feed. unfold syncAndCreatePosts. now rewrite Hdb.
  - split; [reflexivity|]. split; [reflexivity|].
    intros sid. unfold emptyDB. simpl. apply (lookup_empty (M := gmap string)).
Qed.

Lemma unreadable_ledger_recovery_witness :
  readDB {[ DB_FILE := Garbage ]} = Return emptyDB /\
  forall fmt clock blogger feed,
    syncAndCreatePosts fmt clock blogger {[ DB_FILE := Garbage ]} feed
    = {| pass_events := []; pass_fs := {[ DB_FILE := Garbage ]};
         pass_completion := Throw NoRefreshToken |}.
Proof.
  apply (proj1 (proj2 (unreadable_ledger_recovery {[ DB_FILE := Garbage ]}))).
  right. exists Garbage. split; reflexivity.
Defined.

(** C8 fails in its last part: the pass that follows the loading of a
    corrupt ledger does not go on to publish the identities of the feed; it
    fails for want of a credential and Blogger is not called. *)
Lemma unreadable_ledger_pass_counterexample :
  let r := syncAndCreatePosts sample_locale sample_clock accept_all
             {[ DB_FILE := Garbage ]} (flat_feed [stream_with_id "a"]) in
  readDB {[ DB_FILE := Garbage ]} = Return emptyDB /\
  pass_completion r = Throw NoRefreshToken /\
  pass_events r = [] /\
  "a" ∉ inserted_sids (pass_events r).
Proof.
  split; [reflexivity|]. split; [reflexivity|]. split; [reflexivity|].
  apply not_elem_of_nil.
Qed.

(** ** Recording a publish *)

(** C6, as the code has it. Recording a publish is an assignment into the
    published map: it never fails, whether or not the identity has an entry
    already, and afterwards the identity (any name but [__proto__]) has the
    new entry and the other identities have theirs.  The loop records a publish only for identities
    the published map had no entry for, and no identity twice. *)
Theorem recording_overwrites :
  (forall (m : gmap string PublishedEntry) sid postId createdAt title,
     sid <> "__proto__" ->
     exists m',
       recordPublished m sid postId createdAt title = Return m' /\
       m' !! sid = Some {| entry_postId := postId; entry_createdAt := createdAt;
                           entry_title := title |} /\
       forall k, k <> sid -> m' !! k = m !! k) /\
  (forall fmt clock blogger streams (m : gmap string PublishedEntry) n,
     Forall (fun sid => m !! sid = None)
       (published_sids (lr_events (loop fmt clock blogger streams m n))) /\
     NoDup (published_sids (lr_events (loop fmt clock blogger streams m n)))).
Proof.
  split.
  - intros m sid postId createdAt title _. eexists. split; [reflexivity|]. split.
    + apply lookup_insert_eq.
    + intros k Hk. now apply lookup_insert_ne.
  - intros fmt clock blogger streams m n. split; [|apply loop_published_NoDup].
    apply Forall_forall. intros sid Hin.
    apply not_posted_lookup.
    apply (loop_inserted_not_posted fmt clock blogger streams m n).
    now apply published_inserted.
Qed.

Lemma recording_overwrites_witness :
  exists m' : gmap string PublishedEntry,
    recordPublished {[ "a" := sample_entry ]} "b" (Some (JStr "8847"))
      "2026-01-01T20:00:00.000Z" (Some (JStr "Match b")) = Return m' /\
    m' !! "a" = ({[ "a" := sample_entry ]} : gmap string PublishedEntry) !! "a".
Proof.
  destruct (proj1 recording_overwrites {[ "a" := sample_entry ]} "b" (Some (JStr "8847"))
              "2026-01-01T20:00:00.000Z" (Some (JStr "Match b")))
    as (m' & H1 & _ & H3); [discriminate|].
  exists m'. split; [exact H1|]. apply H3. discriminate.
Defined.

(** C6 fails: recording a publish for an identity that has an entry returns
    normally, and the entry is replaced. *)
Lemma recording_conflict_counterexample :
  let m : gmap string PublishedEntry := {[ "a" := sample_entry ]} in
  m !! "a" = Some sample_entry /\
  exists m',
    recordPublished m "a" (Some (JStr "8847")) "2026-01-01T20:00:00.000Z"
      (Some (JStr "Match a")) = Return m' /\
    m' !! "a" = Some {| entry_postId := Some (JStr "8847");
                        entry_createdAt := "2026-01-01T20:00:00.000Z";
                        entry_title := Some (JStr "Match a") |} /\
    m' !! "a" <> m !! "a".
Proof.
  split; [reflexivity|]. eexists. split; [reflexivity|].
  split; [reflexivity|]. vm_compute. discriminate.
Qed.

(** ** Saving the ledger *)

Lemma DB_FILE_not_TMP_FILE : DB_FILE <> TMP_FILE.
Proof. discriminate. Qed.

(** C7, as the code has it. [writeDB] is one [writeFileSync] of the whole
    text on the ledger file itself, with no temporary file and no rename.
    A crash during that write can leave the ledger file with a part of the
    text, from which the next [readDB] gets the empty ledger.  (Saved through
    a temporary file and a rename, the ledger file would hold the old or the
    new ledger whole at every point.) *)
Theorem writeDB_overwrites_in_place :
  forall (fs : FS) (db : DB),
    writeDB db = [ WriteFile DB_FILE (JSON_stringify db) ] /\
    apply_ops (writeDB db) fs !! DB_FILE = Some (Json db) /\
    <[DB_FILE := Partial db]> fs ∈ crash_states (writeDB db) fs /\
    readDB (<[DB_FILE := Partial db]> fs) = Return emptyDB /\
    Forall (whole (fs !! DB_FILE) db) (crash_states (save_via_rename db) fs).
Proof.
  intros fs db. split; [reflexivity|]. split; [apply lookup_insert_eq|]. split.
  { simpl. apply elem_of_cons. right. apply elem_of_cons. now left. }
  split.
  { apply readDB_unreadable. right. exists (Partial db).
    split; [apply lookup_insert_eq | reflexivity]. }
  pose proof DB_FILE_not_TMP_FILE as Hne.
  unfold save_via_rename, whole, JSON_stringify.
  cbn [crash_states during apply_op app truncated].
  rewrite lookup_insert_eq.
  repeat (apply Forall_cons; split); [ | | | | apply Forall_nil_2].
  - now left.
  - left. now rewrite lookup_insert_ne by congruence.
  - left. now rewrite lookup_insert_ne by congruence.
  - right. now rewrite lookup_insert_eq.
Qed.

(** C7 fails: while the ledger with "a" and "b" is saved over the ledger
    with "a", a crash can leave a ledger file that holds neither, and from
    which the next load gets the empty ledger. *)
Lemma writeDB_crash_counterexample :
  let db := {| postedIds := Some (<["b" := sample_entry]> {[ "a" := sample_entry ]});
               refresh_token := Some (JStr "1//token") |} in
  exists fs' : FS,
    fs' ∈ crash_states (writeDB db) sample_fs /\
    fs' !! DB_FILE = Some (Partial db) /\
    ~ whole (sample_fs !! DB_FILE) db fs' /\
    readDB fs' = Return emptyDB.
Proof.
  intros db. exists (<[DB_FILE := Partial db]> sample_fs).
  split. { simpl. apply elem_of_cons. right. apply elem_of_cons. now left. }
  split. { apply lookup_insert_eq. }
  split.
  - unfold whole. rewrite lookup_insert_eq. intros [H|H]; [|discriminate].
    unfold sample_fs in H. rewrite lookup_singleton_eq in H. discriminate.
  - apply readDB_unreadable. right. exists (Partial db).
    split; [apply lookup_insert_eq | reflexivity].
Qed.

(** ** Order of the posts *)

Lemma normalised_not_null (c s : json) :
  s <> JNull -> set_category c (fallback_id s) <> JNull.
Proof.
  destruct s; try congruence; intros _; simpl; try discriminate.
  unfold fallback_id. destruct (_ && _); discriminate.
Qed.



Lemma collect_streams_nested (j ev : json) (cats : list json) :
  prop j "events" = Some ev -> prop ev "streams" = Some (JArr cats) ->
  collect_streams j = collect_groups cats.
Proof.
  intros Hev Hcats. unfold collect_streams.
  destruct j; try discriminate. rewrite Hev. simpl defined. rewrite Hcats.
  destruct ev; try discriminate. reflexivity.
Qed.






(** ** A publish that fails *)

Section TwoPasses.

Variables (fmt fmt' : value -> string) (clock clock' : nat -> string).
Variables (blogger blogger' : nat -> Request -> option value).

(** The second of two passes over one feed, the first of which returned. *)
Lemma second_pass_inserted (fs : FS) (st : number) (j : json) (res : SyncResult) :
  let feed := Response true st (Some j) in
  let r1 := syncAndCreatePosts fmt clock blogger fs feed in
  let r2 := syncAndCreatePosts fmt' clock' blogger' (pass_fs r1) feed in
  pass_completion r1 = Return res ->
  map created_sid (created res) = published_sids (pass_events r1) /\
  (exists db db1,
     readDB fs = Return db /\ readDB (pass_fs r1) = Return db1 /\
     (forall x, x ∉ published_sids (pass_events r1) ->
                default ∅ (postedIds db1) !! x = default ∅ (postedIds db) !! x) /\
     (forall x, x ∈ inserted_sids (pass_events r1) ->
                x ∉ published_sids (pass_events r1) ->
                default ∅ (postedIds db1) !! x = None)) /\
  (forall y, y ∈ inserted_sids (pass_events r2) <->
             y ∈ inserted_sids (pass_events r1) /\
             (y ∉ published_sids (pass_events r1))).
Proof.
  intros feed r1 r2 Hres. subst feed r1 r2.
  destruct (pass_returned _ _ _ fs st j res Hres) as (db & streams & Hdb & Htok & Hj & Hret).
  rewrite (pass_completed fmt clock blogger fs st j db streams Hdb Htok Hj Hret) in *.
  unfold completed in *. cbv zeta in *. cbn [pass_events pass_fs pass_completion] in *.
  set (m := default ∅ (postedIds db)) in *.
  set (lr := loop fmt clock blogger streams m 0) in *.
  set (db1 := {| postedIds := Some (lr_posted lr); refresh_token := refresh_token db |}) in *.
  assert (Hpub : published_sids (Fetch :: lr_events lr ++ map Fs (writeDB db1))
                 = published_sids (lr_events lr)).
  { cbn [published_sids]. now rewrite published_sids_app, published_sids_Fs, app_nil_r. }
  assert (Hins : inserted_sids (Fetch :: lr_events lr ++ map Fs (writeDB db1))
                 = inserted_sids (lr_events lr)).
  { cbn [inserted_sids]. now rewrite inserted_sids_app, inserted_sids_Fs, app_nil_r. }
  rewrite Hpub, Hins. split; [|split].
  - injection Hres as <-. cbn [created]. apply loop_created_published.
  - exists db, db1. split; [assumption|]. split; [apply readDB_written|].
    assert (Hkeep : forall x, x ∉ published_sids (lr_events lr) ->
                              default ∅ (postedIds db1) !! x = m !! x).
    { intros x Hx. cbn [postedIds db1 default].
      now apply (loop_posted_after fmt clock blogger streams m 0 x). }
    split; [exact Hkeep|].
    intros x Hin Hout. rewrite (Hkeep x Hout).
    apply not_posted_lookup.
    now apply (loop_inserted_not_posted fmt clock blogger streams m 0).
  - intros y.
    assert (Hret' : lr_completion (loop fmt' clock' blogger' streams (lr_posted lr) 0)
                    = Return tt).
    { apply (loop_completes_after fmt clock blogger fmt' clock' blogger' streams m 0);
        [exact Hret | auto]. }
    rewrite (pass_completed fmt' clock' blogger' _ st j db1 streams
               (readDB_written fs db1) Htok Hj Hret').
    unfold completed. cbv zeta. cbn [pass_events inserted_sids].
    rewrite inserted_sids_app, inserted_sids_Fs, app_nil_r.
    cbn [postedIds db1 default].
    rewrite (loop_inserted_iff fmt' clock' blogger' streams (lr_posted lr) 0 y Hret').
    unfold lr.
    rewrite (loop_inserted_iff fmt clock blogger streams m 0 y Hret).
    rewrite loop_posted_after_iff. tauto.
Qed.

End TwoPasses.

(** C3, as the code has it. When Blogger fails for a stream, that turn of
    the loop adds nothing to the published map or to [created], and the loop
    goes on with the streams that follow.  After a pass that returned,
    [created] lists the identities published and no other, and an identity
    that was not published has in the saved ledger what it had before (no
    entry, if Blogger was called for it); a later pass over the same feed
    calls Blogger for exactly the identities for which the first pass called
    it without publishing them.  (An identity whose publish failed for one
    stream and succeeded for a later stream of the same pass is published.) *)
Theorem publish_failure_isolated :
  (forall fmt clock blogger (s : json) rest (m : gmap string PublishedEntry) n sid req,
     s <> JNull -> identity s = Return sid -> sid <> "" -> posted m sid = false ->
     request fmt s sid = Return req ->
     blogger n req = None ->
     let r := loop fmt clock blogger rest m (S n) in
     loop fmt clock blogger (s :: rest) m n
     = {| lr_events := Insert sid req None :: lr_events r;
          lr_posted := lr_posted r;
          lr_created := lr_created r;
          lr_completion := lr_completion r |}) /\
  (forall fmt fmt' clock clock' blogger blogger' (fs : FS) st j res,
     let feed := Response true st (Some j) in
     let r1 := syncAndCreatePosts fmt clock blogger fs feed in
     let r2 := syncAndCreatePosts fmt' clock' blogger' (pass_fs r1) feed in
     pass_completion r1 = Return res ->
     map created_sid (created res) = published_sids (pass_events r1) /\
     (exists db db1,
        readDB fs = Return db /\ readDB (pass_fs r1) = Return db1 /\
        (forall x, x ∉ published_sids (pass_events r1) ->
                   default ∅ (postedIds db1) !! x = default ∅ (postedIds db) !! x) /\
        (forall x, x ∈ inserted_sids (pass_events r1) ->
                   x ∉ published_sids (pass_events r1) ->
                   default ∅ (postedIds db1) !! x = None)) /\
     (forall y, y ∈ inserted_sids (pass_events r2) <->
                y ∈ inserted_sids (pass_events r1) /\
                (y ∉ published_sids (pass_events r1)))).
Proof.
  split.
  - intros fmt clock blogger s rest m n sid req Hs Hsid Hid Hp Hreq Hfail r.
    rewrite (loop_cons fmt clock blogger s rest m n Hs). cbv zeta.
    apply String.eqb_neq in Hid. now rewrite Hsid, Hid, Hp, Hreq, Hfail.
  - intros fmt fmt' clock clock' blogger blogger' fs st j res.
    apply second_pass_inserted.
Qed.

Lemma publish_failure_isolated_witness :
  let feed := JArr [stream_with_id "A"; stream_with_id "B"; stream_with_id "C"] in
  let r1 := syncAndCreatePosts sample_locale sample_clock (reject_nth 1) blank_fs
              (Response true "200" (Some feed)) in
  let r2 := syncAndCreatePosts sample_locale sample_clock accept_all (pass_fs r1)
              (Response true "200" (Some feed)) in
  (lr_created (loop sample_locale sample_clock (reject_nth 1)
                 [stream_with_id "B"; stream_with_id "C"] {[ "A" := sample_entry ]} 1)
   = lr_created (loop sample_locale sample_clock (reject_nth 1)
                   [stream_with_id "C"] {[ "A" := sample_entry ]} 2)) /\
  (forall y, y ∈ inserted_sids (pass_events r2) <->
             y ∈ inserted_sids (pass_events r1) /\
             (y ∉ published_sids (pass_events r1))).
Proof.
  intros feed r1 r2. split.
  - erewrite (proj1 publish_failure_isolated sample_locale sample_clock (reject_nth 1)
               (stream_with_id "B") [stream_with_id "C"] {[ "A" := sample_entry ]} 1 "B");
      [reflexivity | discriminate | reflexivity | discriminate | reflexivity
      | reflexivity | reflexivity].
  - edestruct (proj2 publish_failure_isolated sample_locale sample_locale
                 sample_clock sample_clock (reject_nth 1) accept_all blank_fs "200" feed)
      as (_ & _ & H); [vm_compute; reflexivity | exact H].
Defined.

(** C3 fails when an identity comes twice in the feed: Blogger fails for
    the first stream of identity "b" and succeeds for the second, so "b" is
    in the result and in the ledger after the pass, and the next pass over
    the same feed calls Blogger for nothing. *)
Lemma publish_failure_isolated_counterexample :
  let feed := flat_feed [stream_with_id "b"; stream_with_id "b"] in
  let r1 := syncAndCreatePosts sample_locale sample_clock (reject_nth 0) blank_fs feed in
  let r2 := syncAndCreatePosts sample_locale sample_clock accept_all (pass_fs r1) feed in
  (exists req, request sample_locale (stream_with_id "b") "b" = Return req /\
               pass_events r1 !! 1 = Some (Insert "b" req None)) /\
  (exists res, pass_completion r1 = Return res /\
               map created_sid (created res) = ["b"]) /\
  (exists db1 e, readDB (pass_fs r1) = Return db1 /\
                 default ∅ (postedIds db1) !! "b" = Some e) /\
  inserted_sids (pass_events r2) = [].
Proof.
  intros feed r1 r2. split; [eexists; split; vm_compute; reflexivity|].
  split; [eexists; split; vm_compute; reflexivity|].
  split; [do 2 eexists; split; vm_compute; reflexivity|].
  vm_compute; reflexivity.
Qed.
(** * Further properties of the code *)

(** ** escapeHtml on texts *)

Lemma string_app_assoc (a b c : string) : (a +:+ b) +:+ c = a +:+ (b +:+ c).
Proof. induction a as [|x a IH]; simpl; [reflexivity | now rewrite IH]. Qed.

Lemma string_app_length (a b : string) :
  String.length (a +:+ b) = String.length a + String.length b.
Proof. induction a as [|x a IH]; simpl; [reflexivity | now rewrite IH]. Qed.

(** What [entity] does to a character: nothing when it is not special,
    and otherwise a longer text that starts with an ampersand. *)
Lemma entity_special (c : ascii) :
  (special c = false /\ entity c = String c "") \/
  (special c = true /\ exists rest, entity c = String "&" rest /\ 3 <= String.length rest).
Proof.
  unfold special.
  destruct (entity_cases c) as [[-> ->]|[[-> ->]|[[-> ->]|[[-> ->]|[[-> ->]|(Ha & Hm & ->)]]]]].
  - right. split; [reflexivity|]. eexists. split; [reflexivity|]. simpl. lia.
  - right. split; [reflexivity|]. eexists. split; [reflexivity|]. simpl. lia.
  - right. split; [reflexivity|]. eexists. split; [reflexivity|]. simpl. lia.
  - right. split; [reflexivity|]. eexists. split; [reflexivity|]. simpl. lia.
  - right. split; [reflexivity|]. eexists. split; [reflexivity|]. simpl. lia.
  - left. now rewrite Ha, Hm.
Qed.

Lemma replace_special_length (t : string) :
  String.length t <= String.length (replace_special t) /\
  (has_special t = true -> String.length t < String.length (replace_special t)).
Proof.
  induction t as [|c t [IH1 IH2]]; simpl; [split; [lia | discriminate]|].
  rewrite string_app_length.
  destruct (entity_special c) as [[Hs ->]|[Hs (rest & -> & Hlen)]]; rewrite Hs; simpl.
  - split; [lia|]. intros H. apply IH2 in H. lia.
  - split; [lia|]. intros _. lia.
Qed.

Lemma replace_special_plain (t : string) : has_special t = false -> replace_special t = t.
Proof.
  induction t as [|c t IH]; simpl; [reflexivity|].
  intros H. apply orb_false_iff in H as [Hc Ht].
  destruct (entity_special c) as [[_ ->]|[Hs _]]; [|congruence].
  simpl. now rewrite IH.
Qed.

Lemma has_special_replace_special (t : string) :
  has_special (replace_special t) = has_special t.
Proof.
  induction t as [|c t IH]; simpl; [reflexivity|].
  destruct (entity_special c) as [[Hs ->]|[Hs (rest & -> & _)]]; rewrite Hs; simpl.
  - now rewrite Hs, IH.
  - reflexivity.
Qed.

(** X1. Escaping a text piece by piece gives the escaped whole. *)
Theorem escapeHtml_concat :
  forall a b : string,
    exists a' b',
      escapeHtml (Some (JStr a)) = Return a' /\
      escapeHtml (Some (JStr b)) = Return b' /\
      escapeHtml (Some (JStr (a +:+ b))) = Return (a' +:+ b').
Proof.
  intros a b. rewrite !escapeHtml_text. do 2 eexists.
  split; [reflexivity|]. split; [reflexivity|]. f_equal.
  induction a as [|c a IH]; simpl; [reflexivity|].
  now rewrite IH, string_app_assoc.
Qed.

(** X2. [escapeHtml] throws when the conversion of its argument to text
    throws; otherwise it returns that text unchanged exactly when the text
    has none of the five special characters, and it never returns a shorter
    text. *)
Theorem escapeHtml_unchanged_iff :
  forall v : value,
    match String_ (v <||> Some (JStr "")) with
    | Return t =>
        exists out, escapeHtml v = Return out /\
                    (out = t <-> has_special t = false) /\
                    String.length t <= String.length out
    | Throw e => escapeHtml v = Throw e
    end.
Proof.
  intros v. unfold escapeHtml.
  destruct (String_ (v <||> Some (JStr ""))) as [t|e]; [|reflexivity].
  eexists. split; [reflexivity|]. split; [|apply replace_special_length].
  split.
  - intros Heq. destruct (has_special t) eqn:E; [|reflexivity].
    apply replace_special_length in E. rewrite Heq in E. lia.
  - apply replace_special_plain.
Qed.

(** X3. Escaping is not idempotent: escaping an escaped text again gives
    the same text only when the original had no special character (an
    ampersand of an entity is escaped anew). *)
Theorem escapeHtml_twice_iff :
  forall v : value,
    match String_ (v <||> Some (JStr "")) with
    | Return t =>
        exists out, escapeHtml v = Return out /\
                    (escapeHtml (Some (JStr out)) = Return out <->
                     has_special t = false)
    | Throw e => escapeHtml v = Throw e
    end.
Proof.
  intros v. unfold escapeHtml at 1 3.
  destruct (String_ (v <||> Some (JStr ""))) as [t|e]; [|reflexivity].
  eexists. split; [reflexivity|]. rewrite escapeHtml_text.
  rewrite <- (has_special_replace_special t). split.
  - intros [= Heq]. destruct (has_special (replace_special t)) eqn:E; [|reflexivity].
    apply replace_special_length in E. rewrite Heq in E. lia.
  - intros H. f_equal. now apply replace_special_plain.
Qed.

(** ** More on the loop *)

Lemma posted_prototype_name (m : gmap string PublishedEntry) (sid : string) :
  sid ∈ Object_prototype_names -> posted m sid = true.
Proof.
  intros H. unfold posted. destruct (m !! sid); [reflexivity|].
  now apply bool_decide_eq_true.
Qed.

Lemma anonymous_identity (s : json) : anonymous s -> identity s = Return "".
Proof.
  intros (H1 & H2 & H3 & H4 & H5). unfold identity. now or_else_known.
Qed.

Lemma not_object_anonymous (s : json) : is_object s = false -> anonymous s.
Proof. destruct s; try discriminate; intros _; repeat split. Qed.

Lemma writes_app (l1 l2 : list Event) : writes (l1 ++ l2) = (writes l1 ++ writes l2)%list.
Proof.
  induction l1 as [|[| sid r a | op] l1 IH]; simpl; auto. now rewrite IH.
Qed.

Lemma writes_Fs (ops : list FsOp) : writes (map Fs ops) = ops.
Proof. induction ops as [|op ops IH]; simpl; [reflexivity | now rewrite IH]. Qed.

Section LoopMore.

Variable toLocaleString : value -> string.
Variable toISOString_now : nat -> string.
Variable posts_insert : nat -> Request -> option value.

Let run := loop toLocaleString toISOString_now posts_insert.

(** Case analysis on the first turn of the loop on a stream that is not
    null: its identity is empty; it is posted; Blogger answers; Blogger
    fails; the body throws; the identity throws. *)
Ltac turn s rest m n Hs :=
  rewrite (loop_cons toLocaleString toISOString_now posts_insert s rest m n Hs);
  cbv zeta;
  destruct (identity s) as [sid|e] eqn:Eidentity;
  [ destruct (String.eqb sid "") eqn:Eempty;
    [ | destruct (posted m sid) eqn:Eposted;
        [ | destruct (request toLocaleString s sid) as [req|e] eqn:Erequest;
            [ destruct (posts_insert n req) as [id|] eqn:Eanswer | ] ] ]
  | ].

Lemma loop_to_null (pre post : list json) :
  forall (m : gmap string PublishedEntry) (n : nat),
    Forall (fun s => s <> JNull) pre ->
    run (pre ++ JNull :: post) m n =
    {| lr_events := lr_events (run pre m n);
       lr_posted := lr_posted (run pre m n);
       lr_created := lr_created (run pre m n);
       lr_completion := Throw TypeError |}.
Proof.
  unfold run. induction pre as [|s pre IH]; intros m n Hall; [reflexivity|].
  apply Forall_cons in Hall as [Hs Hall]. rewrite <- app_comm_cons.
  rewrite (loop_cons _ _ _ s (pre ++ JNull :: post) m n Hs).
  turn s pre m n Hs; try (now apply IH);
    try (cbv zeta; rewrite (IH _ _ Hall); reflexivity).
  - apply request_Throw, content_throws in Erequest. now subst e.
  - apply String_throws in Eidentity. now subst e.
Qed.

Lemma loop_calls_bounded (streams : list json) :
  forall (m : gmap string PublishedEntry) (n : nat),
    length (inserted_sids (lr_events (run streams m n))) <= length streams.
Proof.
  unfold run. induction streams as [|s rest IH]; intros m n; [simpl; lia|].
  destruct (json_null_dec s) as [->|Hs]; [simpl; lia|].
  turn s rest m n Hs; simpl; try lia.
  - specialize (IH m n). lia.
  - specialize (IH m n). lia.
  - match goal with |- context [loop _ _ _ rest ?m' (S n)] => specialize (IH m' (S n)) end.
    lia.
  - specialize (IH m (S n)). lia.
Qed.

Lemma loop_writes_nothing (streams : list json) :
  forall (m : gmap string PublishedEntry) (n : nat),
    writes (lr_events (run streams m n)) = [].
Proof.
  unfold run. induction streams as [|s rest IH]; intros m n; [reflexivity|].
  destruct (json_null_dec s) as [->|Hs]; [reflexivity|].
  turn s rest m n Hs; simpl; auto.
Qed.

(** Each item of [created] has its entry in the published map the loop
    leaves. *)
Lemma loop_created_recorded (streams : list json) :
  forall (m : gmap string PublishedEntry) (n : nat) (c : Created),
    c ∈ lr_created (run streams m n) ->
    exists t, lr_posted (run streams m n) !! created_sid c
              = Some {| entry_postId := created_postId c;
                        entry_createdAt := t;
                        entry_title := created_title c |}.
Proof.
  unfold run. induction streams as [|s rest IH]; intros m n c.
  - simpl. intros H. now apply elem_of_nil in H.
  - destruct (json_null_dec s) as [->|Hs].
    { simpl. intros H. now apply elem_of_nil in H. }
    turn s rest m n Hs; simpl; auto;
      try (intros H; now apply elem_of_nil in H).
    intros [->|Hin]%elem_of_cons; [|now apply IH].
    simpl. exists (toISOString_now n).
    match goal with |- lr_posted (loop _ _ _ rest ?m' _) !! _ = _ =>
      destruct (loop_posted_untouched toLocaleString toISOString_now posts_insert
                  rest m' (S n) sid) as [_ ->]
    end.
    + rewrite posted_insert, String.eqb_refl. apply orb_true_r.
    + apply lookup_insert_eq.
Qed.

End LoopMore.

(** X4. A stream none of whose five identity fields is truthy has the empty
    identity and the loop passes over it: nothing is sent to Blogger for it
    and nothing is recorded.  Such are all the feed elements that are not
    objects (strings, numbers, booleans, arrays). *)
Theorem anonymous_stream_skipped :
  (forall s, is_object s = false -> anonymous s) /\
  (forall fmt clock blogger (s : json) rest (m : gmap string PublishedEntry) n,
     s <> JNull -> anonymous s ->
     identity s = Return "" /\
     loop fmt clock blogger (s :: rest) m n = loop fmt clock blogger rest m n).
Proof.
  split; [apply not_object_anonymous|].
  intros fmt clock blogger s rest m n Hs Han.
  pose proof (anonymous_identity s Han) as Hid. split; [assumption|].
  rewrite (loop_cons fmt clock blogger s rest m n Hs). cbv zeta.
  now rewrite Hid.
Qed.

Lemma anonymous_stream_skipped_witness :
  identity (JObj [("poster", JStr "p.png"); ("id", JNum "0")]) = Return "" /\
  loop sample_locale sample_clock accept_all
    [JObj [("poster", JStr "p.png"); ("id", JNum "0")]; stream_with_id "B"]
    {[ "a" := sample_entry ]} 0
  = loop sample_locale sample_clock accept_all [stream_with_id "B"]
      {[ "a" := sample_entry ]} 0.
Proof.
  apply (proj2 anonymous_stream_skipped); [discriminate | repeat split].
Defined.

(** X5. A [null] element in a flat feed stops the pass where it stands: the
    pass throws a TypeError, the calls already made to Blogger for the
    streams before it stay made, and the ledger file is not written, so
    that the posts they created are not recorded. *)
Theorem null_stream_aborts_unsaved :
  forall fmt clock blogger (fs : FS) st db (pre post : list json),
    readDB fs = Return db ->
    truthy (refresh_token db) = true ->
    Forall (fun s => s <> JNull) pre ->
    let r := syncAndCreatePosts fmt clock blogger fs
               (Response true st (Some (JArr (pre ++ JNull :: post)))) in
    pass_completion r = Throw TypeError /\
    pass_fs r = fs /\
    pass_events r
    = Fetch :: lr_events (loop fmt clock blogger pre (default ∅ (postedIds db)) 0).
Proof.
  intros fmt clock blogger fs st db pre post Hdb Htok Hall r. subst r.
  unfold syncAndCreatePosts. rewrite Hdb, Htok. simpl.
  rewrite (loop_to_null fmt clock blogger pre post _ 0 Hall). simpl.
  repeat split.
Qed.

Lemma null_stream_aborts_unsaved_witness :
  let r := syncAndCreatePosts sample_locale sample_clock accept_all blank_fs
             (Response true "200"
                (Some (JArr ([stream_with_id "A"] ++ JNull :: [stream_with_id "B"])))) in
  pass_completion r = Throw TypeError /\
  pass_fs r = blank_fs /\
  pass_events r
  = Fetch :: lr_events (loop sample_locale sample_clock accept_all [stream_with_id "A"]
                          (default ∅ (postedIds blank_db)) 0).
Proof.
  apply (null_stream_aborts_unsaved sample_locale sample_clock accept_all blank_fs "200"
           blank_db [stream_with_id "A"] [stream_with_id "B"]).
  - reflexivity.
  - reflexivity.
  - repeat constructor; discriminate.
Defined.

(** ** More on the shapes of the feed *)

Lemma collect_group_throws (c : json) (ss : list json) (e : Error) :
  collect_group c ss = Throw e -> e = TypeError.
Proof.
  induction ss as [|s ss IH]; simpl; [discriminate|].
  destruct (collect_group c ss) as [tl|e'] eqn:E.
  - destruct s; simpl; intros H; now inversion H.
  - destruct s; simpl; intros H; inversion H; subst; auto.
Qed.

Lemma collect_group_null (c : json) (ss : list json) :
  JNull ∈ ss -> collect_group c ss = Throw TypeError.
Proof.
  induction ss as [|s ss IH]; intros Hin; [now apply elem_of_nil in Hin|].
  apply elem_of_cons in Hin as [<-|Hin]; [reflexivity|].
  simpl. rewrite (IH Hin). now destruct s.
Qed.

Lemma collect_cat_throws (cat : json) (e : Error) :
  collect_cat cat = Throw e -> e = TypeError.
Proof.
  unfold collect_cat.
  destruct (prop cat "streams") as [[| | | | ss |]|]; try discriminate.
  apply collect_group_throws.
Qed.

Lemma collect_groups_throws (cats : list json) (e : Error) :
  collect_groups cats = Throw e -> e = TypeError.
Proof.
  induction cats as [|cat cats IH]; simpl; [discriminate|].
  destruct (json_null_dec cat) as [->|Hcat]; [intros H; now inversion H|].
  assert (Hstep : (hd ← collect_cat cat; tl ← collect_groups cats; Return (hd ++ tl)%list)
                  = Throw e -> e = TypeError).
  { destruct (collect_cat cat) as [hd|e1] eqn:E1; simpl.
    - destruct (collect_groups cats) as [tl|e2]; simpl; [discriminate|].
      intros H. inversion H. subst. now apply IH.
    - intros H. inversion H. subst. now apply collect_cat_throws in E1. }
  destruct cat; try congruence; exact Hstep.
Qed.

Lemma collect_groups_null (cats : list json) :
  JNull ∈ cats \/
  (exists cat ss, cat ∈ cats /\ prop cat "streams" = Some (JArr ss) /\ JNull ∈ ss) ->
  collect_groups cats = Throw TypeError.
Proof.
  intros H.
  destruct (collect_groups cats) as [l|e] eqn:E.
  2:{ f_equal. now apply collect_groups_throws in E. }
  exfalso. revert l E H.
  induction cats as [|cat cats IH]; intros l E H.
  - destruct H as [H|(cat & ss & H & _)]; now apply elem_of_nil in H.
  - destruct (json_null_dec cat) as [->|Hcat]; [discriminate|].
    assert (Hstep : (hd ← collect_cat cat; tl ← collect_groups cats; Return (hd ++ tl)%list)
                    = Return l).
    { destruct cat; try congruence; exact E. }
    destruct (collect_cat cat) as [hd|e1] eqn:E1; [|discriminate]. simpl in Hstep.
    destruct (collect_groups cats) as [tl|e2] eqn:E2; [|discriminate].
    apply (IH tl eq_refl).
    destruct H as [H|(cat' & ss & H & Hss & Hnull)].
    + apply elem_of_cons in H as [<-|H]; [congruence | now left].
    + apply elem_of_cons in H as [->|H]; [|right; eauto].
      unfold collect_cat in E1. rewrite Hss in E1.
      rewrite (collect_group_null _ ss Hnull) in E1. discriminate.
Qed.

(** X6. In a feed of the nested shape, a [null] among the category groups
    or among the streams of a group makes the pass throw a TypeError while it
    collects the streams: Blogger is not called and the ledger file is not
    written. *)
Theorem nested_null_fails_before_publishing :
  forall fmt clock blogger (fs : FS) st db (j ev : json) (cats : list json),
    readDB fs = Return db ->
    truthy (refresh_token db) = true ->
    prop j "events" = Some ev ->
    prop ev "streams" = Some (JArr cats) ->
    JNull ∈ cats \/
    (exists cat ss, cat ∈ cats /\ prop cat "streams" = Some (JArr ss) /\ JNull ∈ ss) ->
    syncAndCreatePosts fmt clock blogger fs (Response true st (Some j))
    = {| pass_events := [Fetch]; pass_fs := fs; pass_completion := Throw TypeError |}.
Proof.
  intros fmt clock blogger fs st db j ev cats Hdb Htok Hev Hcats Hnull.
  unfold syncAndCreatePosts. rewrite Hdb, Htok. simpl.
  rewrite (collect_streams_nested j ev cats Hev Hcats).
  now rewrite (collect_groups_null cats Hnull).
Qed.

Lemma nested_null_fails_before_publishing_witness :
  syncAndCreatePosts sample_locale sample_clock accept_all blank_fs
    (Response true "200"
       (Some (JObj [("events", JObj [("streams",
          JArr [JObj [("category", JStr "Soccer");
                      ("streams", JArr [stream_with_id "A"; JNull])]])])])))
  = {| pass_events := [Fetch]; pass_fs := blank_fs; pass_completion := Throw TypeError |}.
Proof.
  apply (nested_null_fails_before_publishing sample_locale sample_clock accept_all
           blank_fs "200" blank_db _
           (JObj [("streams",
              JArr [JObj [("category", JStr "Soccer");
                          ("streams", JArr [stream_with_id "A"; JNull])]])])
           [JObj [("category", JStr "Soccer");
                  ("streams", JArr [stream_with_id "A"; JNull])]]).
  - reflexivity.
  - reflexivity.
  - reflexivity.
  - reflexivity.
  - right. exists (JObj [("category", JStr "Soccer");
                         ("streams", JArr [stream_with_id "A"; JNull])]),
             [stream_with_id "A"; JNull].
    split; [apply elem_of_cons; now left|]. split; [reflexivity|].
    apply elem_of_cons. right. apply elem_of_cons. now left.
Defined.



(** ** The ledger and the result after a pass *)

Lemma pass_returned_completed fmt clock blogger (fs : FS) st j res :
  pass_completion (syncAndCreatePosts fmt clock blogger fs (Response true st (Some j)))
  = Return res ->
  exists db streams,
    readDB fs = Return db /\ collect_streams j = Return streams /\
    lr_completion (loop fmt clock blogger streams (default ∅ (postedIds db)) 0)
    = Return tt /\
    syncAndCreatePosts fmt clock blogger fs (Response true st (Some j))
    = completed fmt clock blogger fs db streams.
Proof.
  intros Hres.
  destruct (pass_returned fmt clock blogger fs st j res Hres)
    as (db & streams & Hdb & Htok & Hj & Hret).
  exists db, streams. repeat split; auto. now apply pass_completed.
Qed.

Lemma sids_of_elem (streams : list json) (x : string) :
  x ∈ sids_of streams <-> exists s, s ∈ streams /\ identity s = Return x.
Proof.
  induction streams as [|s rest IH].
  - simpl. split; [intros H; now apply elem_of_nil in H|].
    intros (s & H & _). now apply elem_of_nil in H.
  - rewrite sids_of_cons, elem_of_app, IH. split.
    + intros [H|(s' & Hin & Hid)].
      * destruct (identity s) as [sid|e] eqn:E; [|now apply elem_of_nil in H].
        apply list_elem_of_singleton in H as ->. exists s. split; [now left | assumption].
      * exists s'. split; [now right | assumption].
    + intros (s' & Hin & Hid). apply elem_of_cons in Hin as [->|Hin].
      * left. rewrite Hid. now left.
      * right. eauto.
Qed.

Lemma pass_returns_on_success_only fmt clock blogger (fs : FS) feed res :
  pass_completion (syncAndCreatePosts fmt clock blogger fs feed) = Return res ->
  exists st j, feed = Response true st (Some j).
Proof.
  unfold syncAndCreatePosts.
  destruct (readDB fs) as [db|e]; [|discriminate].
  destruct (truthy (refresh_token db)); [|discriminate]. simpl.
  destruct feed as [|[] st [j|]]; try discriminate. eauto.
Qed.

(** X8. After a pass that returned, the saved ledger has the credential it
    had, and an identity has an entry in it exactly when it had one before
    or is in [created]: the published map only grows, by the identities
    published. *)
Theorem ledger_after_pass :
  forall fmt clock blogger (fs : FS) feed res db,
    let r := syncAndCreatePosts fmt clock blogger fs feed in
    pass_completion r = Return res ->
    readDB fs = Return db ->
    exists db1,
      readDB (pass_fs r) = Return db1 /\
      refresh_token db1 = refresh_token db /\
      forall x, is_Some (default ∅ (postedIds db1) !! x) <->
                is_Some (default ∅ (postedIds db) !! x) \/
                x ∈ map created_sid (created res).
Proof.
  intros fmt clock blogger fs feed res db r Hres Hdb. subst r.
  destruct (pass_returns_on_success_only _ _ _ _ _ _ Hres) as (st & j & ->).
  destruct (pass_returned_completed _ _ _ _ _ _ _ Hres)
    as (db0 & streams & Hdb0 & Hj & Hall & Heq).
  rewrite Hdb in Hdb0. injection Hdb0 as <-.
  rewrite Heq in *. unfold completed in *. cbv zeta in *.
  cbn [pass_fs pass_completion] in *. injection Hres as <-. cbn [created].
  eexists. split; [apply readDB_written|]. split; [reflexivity|].
  set (m := default ∅ (postedIds db)).
  intros x. cbn [postedIds default from_option]. unfold id.
  rewrite loop_created_published.
  destruct (loop_posted_after fmt clock blogger streams m 0 x) as [H1 H2].
  destruct (decide (x ∈ published_sids (lr_events (loop fmt clock blogger streams m 0))))
    as [Hin|Hout].
  - split; [auto|]. intros _. now apply H2.
  - rewrite (H1 Hout). tauto.
Qed.

Lemma ledger_after_pass_witness :
  let r := syncAndCreatePosts sample_locale sample_clock accept_all sample_fs
             (flat_feed [stream_with_id "B"]) in
  exists db1,
    readDB (pass_fs r) = Return db1 /\
    refresh_token db1 = refresh_token sample_db /\
    forall x, is_Some (default ∅ (postedIds db1) !! x) <->
              is_Some (default ∅ (postedIds sample_db) !! x) \/
              x ∈ map created_sid
                    [ {| created_sid := "B"; created_postId := Some (JStr "8847");
                         created_title := Some (JStr "Match B") |} ].
Proof.
  apply (ledger_after_pass sample_locale sample_clock accept_all sample_fs
           (flat_feed [stream_with_id "B"])
           {| createdCount := 1;
              created := [ {| created_sid := "B"; created_postId := Some (JStr "8847");
                              created_title := Some (JStr "Match B") |} ] |}
           sample_db); reflexivity.
Defined.

(** X9. After a pass that returned, every item of [created] is recorded:
    the saved ledger has, under the item's identity, an entry with the
    item's post id and title. *)
Theorem created_items_recorded :
  forall fmt clock blogger (fs : FS) feed res (c : Created),
    let r := syncAndCreatePosts fmt clock blogger fs feed in
    pass_completion r = Return res ->
    c ∈ created res ->
    exists db1 t,
      readDB (pass_fs r) = Return db1 /\
      default ∅ (postedIds db1) !! created_sid c
      = Some {| entry_postId := created_postId c;
                entry_createdAt := t;
                entry_title := created_title c |}.
Proof.
  intros fmt clock blogger fs feed res c r Hres Hc. subst r.
  destruct (pass_returns_on_success_only _ _ _ _ _ _ Hres) as (st & j & ->).
  destruct (pass_returned_completed _ _ _ _ _ _ _ Hres)
    as (db & streams & Hdb & Hj & Hall & Heq).
  rewrite Heq in *. unfold completed in *. cbv zeta in *.
  cbn [pass_fs pass_completion] in *. injection Hres as <-. cbn [created] in Hc.
  destruct (loop_created_recorded fmt clock blogger streams _ 0 c Hc) as [t Ht].
  eexists. exists t. split; [apply readDB_written|]. exact Ht.
Qed.

Lemma created_items_recorded_witness :
  let r := syncAndCreatePosts sample_locale sample_clock accept_all sample_fs
             (flat_feed [stream_with_id "B"]) in
  exists db1 t,
    readDB (pass_fs r) = Return db1 /\
    default ∅ (postedIds db1) !! "B"
    = Some {| entry_postId := Some (JStr "8847");
              entry_createdAt := t;
              entry_title := Some (JStr "Match B") |}.
Proof.
  apply (created_items_recorded sample_locale sample_clock accept_all sample_fs
           (flat_feed [stream_with_id "B"])
           {| createdCount := 1;
              created := [ {| created_sid := "B"; created_postId := Some (JStr "8847");
                              created_title := Some (JStr "Match B") |} ] |}
           {| created_sid := "B"; created_postId := Some (JStr "8847");
              created_title := Some (JStr "Match B") |}).
  - reflexivity.
  - apply elem_of_cons. now left.
Defined.
(** X10. In the result of a pass, [createdCount] is the length of
    [created], and the identities of [created] are pairwise distinct, not
    empty, without an entry in the ledger the pass began with, and each the
    identity of a stream of the feed. *)
Theorem created_identities :
  forall fmt clock blogger (fs : FS) st j res db streams,
    let r := syncAndCreatePosts fmt clock blogger fs (Response true st (Some j)) in
    pass_completion r = Return res ->
    readDB fs = Return db ->
    collect_streams j = Return streams ->
    createdCount res = length (created res) /\
    NoDup (map created_sid (created res)) /\
    forall x, x ∈ map created_sid (created res) ->
              x <> "" /\ default ∅ (postedIds db) !! x = None /\
              exists s, s ∈ streams /\ identity s = Return x.
Proof.
  intros fmt clock blogger fs st j res db streams r Hres Hdb Hj. subst r.
  destruct (pass_returned_completed _ _ _ _ _ _ _ Hres)
    as (db0 & streams0 & Hdb0 & Hj0 & Hret & Heq).
  rewrite Hdb in Hdb0. injection Hdb0 as <-.
  rewrite Hj in Hj0. injection Hj0 as <-.
  rewrite Heq in Hres. unfold completed in Hres. cbv zeta in Hres.
  cbn [pass_completion] in Hres. injection Hres as <-. cbn [created createdCount].
  rewrite loop_created_published.
  split; [reflexivity|]. split; [apply loop_published_NoDup|].
  intros x Hx. apply published_inserted in Hx.
  apply (loop_inserted_iff fmt clock blogger streams _ 0 x Hret) in Hx
    as (Hin & Hne & Hp).
  repeat split; auto; [now apply not_posted_lookup | now apply sids_of_elem].
Qed.

Lemma created_identities_witness :
  let res := {| createdCount := 1;
                created := [ {| created_sid := "B"; created_postId := Some (JStr "8847");
                                created_title := Some (JStr "Match B") |} ] |} in
  createdCount res = length (created res) /\
  NoDup (map created_sid (created res)) /\
  forall x, x ∈ map created_sid (created res) ->
            x <> "" /\ default ∅ (postedIds sample_db) !! x = None /\
            exists s, s ∈ [stream_with_id "a"; stream_with_id "B"; stream_with_id "B"] /\
                      identity s = Return x.
Proof.
  intros res.
  apply (created_identities sample_locale sample_clock accept_all sample_fs "200"
           (JArr [stream_with_id "a"; stream_with_id "B"; stream_with_id "B"])
           res sample_db); reflexivity.
Defined.

(** X11. Whatever the ledger and the feed, a pass never calls Blogger for a
    stream whose identity is a name that plain objects inherit from
    Object.prototype ("constructor", "toString", "__proto__", ...): the
    lookup of line 142 finds the inherited member and takes the stream as
    posted. *)
Theorem prototype_names_never_published :
  forall fmt clock blogger (fs : FS) feed sid,
    sid ∈ Object_prototype_names ->
    sid ∉ inserted_sids (pass_events (syncAndCreatePosts fmt clock blogger fs feed)).
Proof.
  intros fmt clock blogger fs feed sid Hsid.
  destruct (pass_events_shape fmt clock blogger fs feed)
    as (streams & m & n & Hev & _ & _).
  destruct Hev as [->|[->|[ops ->]]]; simpl; try apply not_elem_of_nil.
  rewrite inserted_sids_app, inserted_sids_Fs, app_nil_r.
  apply (loop_posted_untouched fmt clock blogger streams m n sid).
  now apply posted_prototype_name.
Qed.

Lemma prototype_names_never_published_witness :
  "constructor" ∉ inserted_sids (pass_events
    (syncAndCreatePosts sample_locale sample_clock accept_all blank_fs
       (flat_feed [JObj [("name", JStr "constructor")]]))).
Proof.
  apply prototype_names_never_published.
  apply elem_of_cons. now left.
Defined.

(** X12. A pass calls Blogger at most once for each stream of the feed. *)
Theorem calls_bounded_by_streams :
  forall fmt clock blogger (fs : FS) st j streams,
    collect_streams j = Return streams ->
    length (inserted_sids (pass_events
      (syncAndCreatePosts fmt clock blogger fs (Response true st (Some j)))))
    <= length streams.
Proof.
  intros fmt clock blogger fs st j streams Hj. unfold syncAndCreatePosts.
  destruct (readDB fs) as [db|e]; [|simpl; lia].
  destruct (truthy (refresh_token db)); [|simpl; lia]. simpl. rewrite Hj.
  pose proof (loop_calls_bounded fmt clock blogger streams (default ∅ (postedIds db)) 0)
    as Hle.
  destruct (lr_completion _); simpl; [|exact Hle].
  rewrite inserted_sids_app. simpl. now rewrite app_nil_r.
Qed.

Lemma calls_bounded_by_streams_witness :
  length (inserted_sids (pass_events
    (syncAndCreatePosts sample_locale sample_clock (reject_nth 0) blank_fs
       (Response true "200" (Some (JArr [stream_with_id "b"; stream_with_id "b"]))))))
  <= length [stream_with_id "b"; stream_with_id "b"].
Proof.
  apply calls_bounded_by_streams. reflexivity.
Defined.
(** X13. A pass goes to the writing of the ledger file at most once, and
    then as its last step, after every call to Blogger.  A pass that
    returned has written it; a pass whose loop stops on a throw has not
    gone to it; and a pass that has not gone to it leaves the file system
    as it was. *)
Theorem ledger_write_last_step :
  forall fmt clock blogger (fs : FS) feed,
    let r := syncAndCreatePosts fmt clock blogger fs feed in
    (writes (pass_events r) = [] \/
     exists db' evs,
       pass_events r = (evs ++ [Fs (WriteFile DB_FILE (JSON_stringify db'))])%list /\
       writes evs = []) /\
    (writes (pass_events r) = [] -> pass_fs r = fs) /\
    (forall res, pass_completion r = Return res ->
       exists db' evs,
         pass_events r = (evs ++ [Fs (WriteFile DB_FILE (JSON_stringify db'))])%list /\
         writes evs = [] /\
         pass_fs r = <[DB_FILE := Json db']> fs) /\
    (forall st j db streams e,
       feed = Response true st (Some j) ->
       readDB fs = Return db ->
       truthy (refresh_token db) = true ->
       collect_streams j = Return streams ->
       lr_completion (loop fmt clock blogger streams (default ∅ (postedIds db)) 0)
       = Throw e ->
       pass_completion r = Throw e /\ writes (pass_events r) = [] /\ pass_fs r = fs).
Proof.
  intros fmt clock blogger fs feed r. subst r.
  split; [|split; [|split]].
  - unfold syncAndCreatePosts.
    destruct (readDB fs) as [db|e0]; [|now left].
    destruct (truthy (refresh_token db)); simpl; [|now left].
    destruct feed as [|[] st [j|]]; simpl; try (now left).
    destruct (collect_streams j) as [streams|e0]; simpl; [|now left].
    pose proof (loop_writes_nothing fmt clock blogger streams
                  (default ∅ (postedIds db)) 0) as Hw.
    destruct (lr_completion _); simpl; [|now left].
    right. eexists.
    exists (Fetch :: lr_events
              (loop fmt clock blogger streams (default ∅ (postedIds db)) 0)).
    split; [reflexivity | exact Hw].
  - unfold syncAndCreatePosts.
    destruct (readDB fs) as [db|e0]; [|reflexivity].
    destruct (truthy (refresh_token db)); simpl; [|reflexivity].
    destruct feed as [|[] st [j|]]; simpl; try reflexivity.
    destruct (collect_streams j) as [streams|e0]; simpl; [|reflexivity].
    destruct (lr_completion _); simpl; [|reflexivity].
    rewrite writes_app. intros H.
    apply (f_equal (@length FsOp)) in H. rewrite length_app in H. simpl in H. lia.
  - unfold syncAndCreatePosts.
    destruct (readDB fs) as [db|e0]; [|discriminate].
    destruct (truthy (refresh_token db)); simpl; [|discriminate].
    destruct feed as [|[] st [j|]]; simpl; try discriminate.
    destruct (collect_streams j) as [streams|e0]; simpl; [|discriminate].
    pose proof (loop_writes_nothing fmt clock blogger streams
                  (default ∅ (postedIds db)) 0) as Hw.
    destruct (lr_completion _); simpl; [|discriminate].
    intros res _. eexists.
    exists (Fetch :: lr_events
              (loop fmt clock blogger streams (default ∅ (postedIds db)) 0)).
    split; [reflexivity|]. split; [exact Hw | reflexivity].
  - intros st j db streams e -> Hdb Htok Hj Hthrow.
    unfold syncAndCreatePosts. rewrite Hdb, Htok. simpl. rewrite Hj, Hthrow. simpl.
    split; [reflexivity|]. split; [|reflexivity].
    apply loop_writes_nothing.
Qed.

Lemma ledger_write_last_step_witness :
  let r := syncAndCreatePosts sample_locale sample_clock accept_all sample_fs
             (flat_feed [stream_with_id "B"; JNull]) in
  pass_completion r = Throw TypeError /\ writes (pass_events r) = [] /\
  pass_fs r = sample_fs.
Proof.
  apply (proj2 (proj2 (proj2 (ledger_write_last_step sample_locale sample_clock
                                accept_all sample_fs
                                (flat_feed [stream_with_id "B"; JNull]))))
           "200" (JArr [stream_with_id "B"; JNull]) sample_db
           [stream_with_id "B"; JNull] TypeError); reflexivity.
Defined.

(** ** What is sent to Blogger *)





(** ** The routes *)





(** X18. The trigger of a pass lets a request through exactly when no
    secret is configured (or an empty one), or the header x-sync-secret is
    the secret, or the header is absent or empty and the query parameter is
    the secret: a non-empty header that is not the secret is refused even if
    the query parameter is right.  A refused request gets 403 and nothing
    else happens: no fetch, no call to Blogger, no write. *)
Theorem sync_route_authorisation :
  forall fmt clock blogger lib SYNC_SECRET header query_secret (fs : FS) feed,
    (forbidden SYNC_SECRET header query_secret = false <->
     SYNC_SECRET = None \/ SYNC_SECRET = Some "" \/
     exists secret, SYNC_SECRET = Some secret /\
       (header = Some secret \/
        ((header = None \/ header = Some "") /\ query_secret = Some (JStr secret)))) /\
    (forbidden SYNC_SECRET header query_secret = true ->
     sync_route fmt clock blogger lib SYNC_SECRET header query_secret fs feed
     = {| handled_events := []; handled_fs := fs;
          handled_reply := Send 403 "Forbidden" |}).
Proof.
  intros fmt clock blogger lib SYNC_SECRET header query_secret fs feed. split.
  2:{ intros H. unfold sync_route. now rewrite H. }
  unfold forbidden, sent_secret.
  destruct SYNC_SECRET as [secret|]; [|split; auto].
  destruct (String.eqb_spec secret "") as [->|Hne]; [split; auto|].
  split.
  - intros H. right. right. exists secret. split; [reflexivity|].
    destruct header as [h|]; simpl in H.
    + unfold or_else in H. simpl in H.
      destruct (String.eqb_spec h "") as [->|Hh]; simpl in H.
      * right. split; [auto|].
        destruct query_secret as [[| | | t | |]|]; try discriminate.
        apply negb_false_iff, String.eqb_eq in H. now subst.
      * left. apply negb_false_iff, String.eqb_eq in H. now subst.
    + right. split; [auto|]. unfold or_else in H. simpl in H.
      destruct query_secret as [[| | | t | |]|]; try discriminate.
      apply negb_false_iff, String.eqb_eq in H. now subst.
  - intros [H|[H|(secret' & [= <-] & H)]]; try discriminate; [congruence|].
    destruct H as [->|[[->| ->] ->]]; simpl; unfold or_else; simpl.
    + destruct (String.eqb_spec secret "") as [->|_]; [congruence|]. simpl.
      now rewrite String.eqb_refl.
    + now rewrite String.eqb_refl.
    + now rewrite String.eqb_refl.
Qed.

Lemma sync_route_authorisation_witness :
  sync_route sample_locale sample_clock accept_all (fun _ => "")
    (Some "s3cret") (Some "guess") (Some (JStr "s3cret")) blank_fs
    (flat_feed [stream_with_id "A"])
  = {| handled_events := []; handled_fs := blank_fs;
       handled_reply := Send 403 "Forbidden" |}.
Proof.
  apply (proj2 (sync_route_authorisation sample_locale sample_clock accept_all
                  (fun _ => "") (Some "s3cret") (Some "guess") (Some (JStr "s3cret"))
                  blank_fs (flat_feed [stream_with_id "A"]))).
  reflexivity.
Defined.

(** X19. A request that is let through on a ledger without a credential is
    answered with status 500 and the message that sends the user to /auth;
    nothing is fetched, published or written. *)
Theorem sync_route_without_credential :
  forall fmt clock blogger lib SYNC_SECRET header query_secret (fs : FS) feed db,
    forbidden SYNC_SECRET header query_secret = false ->
    readDB fs = Return db ->
    truthy (refresh_token db) = false ->
    sync_route fmt clock blogger lib SYNC_SECRET header query_secret fs feed
    = {| handled_events := []; handled_fs := fs;
         handled_reply :=
           SendError 500
             "No refresh token found in DB. Visit /auth and complete OAuth flow." |}.
Proof.
  intros fmt clock blogger lib SYNC_SECRET header query_secret fs feed db Hok Hdb Htok.
  unfold sync_route. rewrite Hok. unfold syncAndCreatePosts. now rewrite Hdb, Htok.
Qed.

Lemma sync_route_without_credential_witness :
  sync_route sample_locale sample_clock accept_all (fun _ => "")
    None None None no_ledger_fs (flat_feed [stream_with_id "A"])
  = {| handled_events := []; handled_fs := no_ledger_fs;
       handled_reply :=
         SendError 500
           "No refresh token found in DB. Visit /auth and complete OAuth flow." |}.
Proof.
  apply (sync_route_without_credential sample_locale sample_clock accept_all (fun _ => "")
           None None None no_ledger_fs (flat_feed [stream_with_id "A"]) emptyDB).
  - reflexivity.
  - vm_compute. reflexivity.
  - reflexivity.
Defined.


(** ** When a turn of the loop throws *)

Lemma falsy_convertible (v : value) : truthy v = false -> convertible_value v = true.
Proof. destruct v as [[| b | n | t | xs | ps]|]; simpl; auto; discriminate. Qed.

Lemma String_returns (v : value) : returns (String_ v) <-> convertible_value v = true.
Proof.
  destruct v as [j|]; simpl; [|split; [reflexivity | eexists; reflexivity]].
  destruct (toString_convertible j) as [H1 H2]. split; [|exact H1].
  intros [t Ht]. destruct (convertible j); [reflexivity|].
  rewrite (H2 eq_refl) in Ht. discriminate.
Qed.

Lemma bind_returns {A B} (c : Completion A) (b : B) :
  returns (a ← c; Return b) <-> returns c.
Proof.
  destruct c as [a|e]; simpl; split; intros [x H]; try discriminate; eexists; reflexivity.
Qed.

Lemma escapeHtml_returns (v : value) :
  returns (escapeHtml v) <-> convertible_value v = true.
Proof.
  destruct (truthy v) eqn:E.
  - rewrite (escapeHtml_truthy v E), <- String_returns.
    destruct (String_ v) as [t|e]; simpl; split; intros [x H];
      try discriminate; eexists; reflexivity.
  - rewrite (escapeHtml_falsy v E), (falsy_convertible v E).
    split; [reflexivity | eexists; reflexivity].
Qed.

Lemma escaped_when_returns (v : value) :
  returns (escaped_when (truthy v) v) <-> convertible_value v = true.
Proof.
  destruct (truthy v) eqn:E; simpl; [apply escapeHtml_returns|].
  rewrite (falsy_convertible v E). split; [reflexivity | eexists; reflexivity].
Qed.

Lemma startsAt_returns (fmt : value -> string) (s : json) :
  returns (startsAt fmt s) <-> convertible_value (prop s "starts_at") = true.
Proof.
  unfold startsAt. destruct (truthy (prop s "starts_at")) eqn:E.
  - rewrite <- String_returns.
    destruct (String_ (prop s "starts_at")) as [t|e]; simpl; split; intros [x H];
      try discriminate; eexists; reflexivity.
  - rewrite (falsy_convertible _ E). split; [reflexivity | eexists; reflexivity].
Qed.

Lemma content_returns (fmt : value -> string) (s : json) :
  returns (content fmt s) <->
  returns (startsAt fmt s) /\
  returns (escaped_when (truthy (prop s "poster")) (prop s "poster")) /\
  returns (escapeHtml (prop s "_category" <||> prop s "category_name" <||> Some (JStr ""))) /\
  returns (escapeHtml (prop s "tag" <||> Some (JStr ""))) /\
  returns (escaped_when (truthy (iframe s)) (iframe s)).
Proof.
  split.
  - intros [body (starts & image & category & tag & embed
                  & H1 & H2 & H3 & H4 & H5 & _)%content_Return].
    repeat split; eexists; eassumption.
  - intros ([a H1] & [b H2] & [c H3] & [d H4] & [e H5]).
    rewrite content_template, H1, H2, H3, H4, H5. eexists. reflexivity.
Qed.

(** X20. The identity and the body of a stream that is not null can be
    computed exactly when none of the six values that lines 140-154 convert
    to text (the first truthy identity field, [starts_at], [poster], the
    category, [tag], the embed URL) is an object with a [toString] of its
    own or an array that holds one; otherwise the conversion throws a
    TypeError outside the [try].  The loop runs to its end over streams of
    which this holds, and it throws nothing but a TypeError. *)
Theorem turn_returns_iff_convertible :
  (forall (fmt : value -> string) (s : json),
     renders fmt s <-> s <> JNull /\ renderable s = true) /\
  (forall fmt clock blogger streams (m : gmap string PublishedEntry) n,
     Forall (fun s => s <> JNull /\ renderable s = true) streams ->
     lr_completion (loop fmt clock blogger streams m n) = Return tt) /\
  (forall fmt clock blogger streams (m : gmap string PublishedEntry) n e,
     lr_completion (loop fmt clock blogger streams m n) = Throw e -> e = TypeError).
Proof.
  assert (Hiff : forall (fmt : value -> string) (s : json),
            renders fmt s <-> s <> JNull /\ renderable s = true).
  { intros fmt s. unfold renders, renderable, texts, identity. cbn [forallb].
    rewrite andb_true_r, !andb_true_iff, content_returns, String_returns,
      startsAt_returns, !escaped_when_returns, !escapeHtml_returns.
    tauto. }
  split; [exact Hiff|]. split.
  - intros fmt clock blogger streams m n Hall. apply loop_completes.
    eapply Forall_impl; [exact Hall|]. intros s Hs. now apply Hiff.
  - intros fmt clock blogger streams m n e. apply loop_throws.
Qed.

Lemma turn_returns_iff_convertible_witness :
  lr_completion (loop sample_locale sample_clock accept_all
                   [JObj [("id", JArr [JNull; JStr "x"]); ("poster", JObj [])];
                    JStr "text"]
                   ∅ 0) = Return tt.
Proof.
  apply (proj1 (proj2 turn_returns_iff_convertible)).
  repeat (apply Forall_cons; split); try apply Forall_nil_2;
    (split; [discriminate | reflexivity]).
Defined.
